(** * pyhomekit.ble: the HAP-BLE PDU layer, embedded and verified

    A shallow embedding of [pyhomekit/ble.py]: PDU headers, the request
    fragmenter, the characteristic driver ([_request], [write],
    [write_ktlvs], [_check_read_response], [_parse_response]).

    Python integers are [Z], [bytes] objects are lists of [Byte.byte],
    dictionaries keyed by strings are [gmap string _], mutable objects
    live in an explicit [world] threaded through a state-and-exception
    monad. The BLE transport is a log of the writes made and a script of
    the responses to come. Calls to [logger.debug] are left out: their
    arguments are values already computed, or [header.data] read once
    more, which changes nothing once the transaction identifier is
    chosen; the name of the opcode looked up for the log is taken to be
    found.

    The file has three parts: the embedding of the code, the helpers of
    [constants.py] and [utils.py] as the specification describes them
    (used to run the code on sample inputs), and the properties. *)

From Stdlib Require Import ZArith Lia List.
From Stdlib.Strings Require Import String Ascii Byte.
From stdpp Require Import base gmap list strings.

Local Open Scope string_scope.
Local Open Scope Z_scope.
Local Open Scope list_scope.

(** ** Bytes and [struct] packing *)

Abbreviation bytes := (list byte).

Definition byte_to_Z (b : byte) : Z := Z.of_N (Byte.to_N b).

(** [len(b)] as a Python integer. *)
Definition len {A} (l : list A) : Z := Z.of_nat (length l).

(** ** Exceptions

    One constructor per raise site of [ble.py], named after the failure
    it signals; the Python exception raised there is given beside it. *)
Inductive error : Type :=
| MalformedHeader        (* ValueError("Invalid control field for response header ...") *)
| InvalidResponse        (* ValueError("Invalid control field ..., not a response.") *)
| TransactionMismatch    (* ValueError("Invalid transaction ID ..., expected ....") *)
| ProtocolStatusError (status_code : Z)  (* HapBleError(status_code=...) *)
| LengthMismatch         (* ValueError("Invalid body length ..., expected ....") *)
| NotSupported           (* NotImplementedError("Fragmented read not yet supported") *)
| PairingProtocolError   (* HapBleError(name="Pairing Error", message="No ktlvs received") *)
| InvalidResponseLength  (* HapBleError(name="Invalid response length") *)
| TransportError         (* bluepy.btle.BTLEException *)
| StructError            (* struct.error: pack of an out-of-range value, unpack of a short buffer *)
| KeyError               (* dict[key] on a missing key *)
| TypeError              (* + on operands of different types, call of a non-callable *)
| UnpackError            (* ValueError of [a, b = t] when t has not two items *)
| AttributeError.        (* attribute access through a reference that holds no object *)

(** What running a piece of code gives: a value, an exception, or no
    answer within the steps allowed (a loop that is still running). *)
Inductive outcome (A : Type) : Type :=
| Ok (a : A)
| Raise (e : error)
| OutOfFuel.
Arguments Ok {A} a.
Arguments Raise {A} e.
Arguments OutOfFuel {A}.

(** [pack('<B', z)]: one byte, [struct.error] outside 0..255. *)
Definition pack_B (z : Z) : outcome byte :=
  if (0 <=? z) && (z <=? 255) then
    match Byte.of_N (Z.to_N z) with
    | Some b => Ok b
    | None => Raise StructError
    end
  else Raise StructError.

(** [pack('<H', z)]: two bytes, little endian, [struct.error] outside
    0..65535. *)
Definition pack_H (z : Z) : outcome bytes :=
  if (0 <=? z) && (z <=? 65535) then
    match Byte.of_N (Z.to_N (z mod 256)), Byte.of_N (Z.to_N (z / 256)) with
    | Some lo, Some hi => Ok [lo; hi]
    | _, _ => Raise StructError
    end
  else Raise StructError.

(** [unpack('<H', b)[0]]: needs exactly two bytes. *)
Definition unpack_H (b : bytes) : outcome Z :=
  match b with
  | [lo; hi] => Ok (byte_to_Z lo + 256 * byte_to_Z hi)
  | _ => Raise StructError
  end.

(** [unpack('<BBB', b)]: needs exactly three bytes. *)
Definition unpack_BBB (b : bytes) : outcome (Z * Z * Z) :=
  match b with
  | [x; y; z] => Ok (byte_to_Z x, byte_to_Z y, byte_to_Z z)
  | _ => Raise StructError
  end.

(** ** PDU headers *)

(** [HapBlePduHeader]: the two flags every header carries. *)
Record HapBlePduHeader : Type := mkHeader {
  continuation : bool;
  response : bool
}.

Definition bit_char (b : bool) : ascii := if b then "1"%char else "0"%char.

(** [control_field_bits]: the string
    ["{continuation}00000{response}0"], most significant bit first. *)
Definition control_field_bits (h : HapBlePduHeader) : string :=
  String (bit_char (continuation h))
    ("00000" ++ String (bit_char (response h)) "0")%string.

(** [int(s, 2)] on a string of binary digits. *)
Fixpoint int_base2_from (acc : Z) (s : string) : Z :=
  match s with
  | EmptyString => acc
  | String c s' => int_base2_from (2 * acc + (if Ascii.eqb c "1" then 1 else 0)) s'
  end.

Definition int_base2 (s : string) : Z := int_base2_from 0 s.

(** [control_field]: the control byte as an integer. *)
Definition control_field (h : HapBlePduHeader) : Z :=
  int_base2 (control_field_bits h).

(** [HapBlePduResponseHeader]. *)
Record HapBlePduResponseHeader : Type := mkResponseHeader {
  resp_base :> HapBlePduHeader;
  transaction_id : Z;
  status_code : Z
}.

(** [bin(n)[2:][::-1]]: the binary digits of [n], least significant
    first, no leading zero. *)
Fixpoint pos_bin_reversed (p : positive) : list ascii :=
  match p with
  | xH => ["1"%char]
  | xO q => "0"%char :: pos_bin_reversed q
  | xI q => "1"%char :: pos_bin_reversed q
  end.

Definition bin_reversed (n : Z) : list ascii :=
  match n with
  | Zpos p => pos_bin_reversed p
  | _ => ["0"%char]
  end.

(** [bin(n)[2:].zfill(8)[::-1]]: the zeros [zfill] puts in front come
    last once the string is reversed. *)
Definition bin_zfill8_reversed (n : Z) : list ascii :=
  let digits := bin_reversed n in
  digits ++ replicate (8 - length digits) "0"%char.

(** [HapBlePduResponseHeader.from_data]. *)
Definition from_data (data : bytes) : outcome HapBlePduResponseHeader :=
  match unpack_BBB (take 3 data) with
  | Ok (cf, tid, status) =>
      let control_field := bin_zfill8_reversed cf in
      let continuation := bool_decide (control_field !! 7%nat = Some "1"%char) in
      let response := bool_decide (control_field !! 1%nat = Some "1"%char) in
      if bool_decide (take 1 control_field ++ take 5 (drop 2 control_field)
                      = replicate 6 "0"%char)
      then Ok (mkResponseHeader (mkHeader continuation response) tid status)
      else Raise MalformedHeader
  | Raise e => Raise e
  | OutOfFuel => OutOfFuel
  end.

(** [HapBlePduResponseHeader.data]. *)
Definition response_header_data (h : HapBlePduResponseHeader) : outcome bytes :=
  match pack_B (control_field h), pack_B (transaction_id h), pack_B (status_code h) with
  | Ok c, Ok t, Ok s => Ok [c; t; s]
  | _, _, _ => Raise StructError
  end.

(** [HapBlePduRequestHeader]. [_transaction_id] is [None] until the
    [transaction_id] property is first read. *)
Record HapBlePduRequestHeader : Type := mkRequestHeader {
  req_base :> HapBlePduHeader;
  op_code : Z;
  _transaction_id : option Z;
  cid_sid : bytes
}.

(** ** Python values held in attribute maps *)

Set Warnings "-register-all".

Inductive pyval : Type :=
| VBytes (b : bytes)
| VInt (z : Z)
| VStr (s : string)
| VTuple (items : list pyval)
| VFun (f : bytes -> outcome pyval).

(** A converter of [constants]: from the bytes of a chunk to a value. *)
Abbreviation converter := (bytes -> outcome pyval).

(** [a + b] on the values above. *)
Definition py_add (a b : pyval) : outcome pyval :=
  match a, b with
  | VBytes x, VBytes y => Ok (VBytes (x ++ y))
  | VInt x, VInt y => Ok (VInt (x + y))
  | VStr x, VStr y => Ok (VStr (x ++ y)%string)
  | VTuple x, VTuple y => Ok (VTuple (x ++ y))
  | _, _ => Raise TypeError
  end.

(** [a, b = v]. *)
Definition py_unpack2 (v : pyval) : outcome (pyval * pyval) :=
  match v with
  | VTuple [a; b] => Ok (a, b)
  | VBytes [a; b] => Ok (VInt (byte_to_Z a), VInt (byte_to_Z b))
  | VStr (String a (String b EmptyString)) =>
      Ok (VStr (String a EmptyString), VStr (String b EmptyString))
  | VTuple _ | VBytes _ | VStr _ => Raise UnpackError
  | VInt _ | VFun _ => Raise TypeError
  end.

(** [s.lower()] on ASCII names. *)
Definition ascii_lower (c : ascii) : ascii :=
  let n := nat_of_ascii c in
  if ((65 <=? n) && (n <=? 90))%nat then ascii_of_nat (n + 32) else c.

Fixpoint lower (s : string) : string :=
  match s with
  | EmptyString => EmptyString
  | String c s' => String (ascii_lower c) (lower s')
  end.

(** ** The modules [ble.py] imports from its own package

    [constants.py] and [utils.py] are not among the sources: what
    [ble.py] takes from them is a parameter of the development. *)
Class Imports : Type := {
  (** [utils.prepare_tlv(param_type, value)]: the wire chunks of one
      parameter, in order. *)
  prepare_tlv : Z -> bytes -> outcome (list bytes);
  (** [utils.iterate_tvl(data)]: the (type, length, bytes) triples of a
      response body, front to back. *)
  iterate_tvl : bytes -> list (Z * Z * bytes);
  (** [utils.parse_ktlvs(value)]. *)
  parse_ktlvs : pyval -> outcome (gmap string pyval);
  (** [constants.identity]. *)
  identity : converter;
  HapBleStatusCodes_Success : Z;
  HapParamTypes_Return_Response : Z;
  HapParamTypes_Value : Z;
  PairingKTlvValues_kTLVType_FragmentData : Z;
  HAP_param_type_code_to_name : Z -> option string;
  HAP_param_name_to_converter : string -> option converter;
  format_code_to_name : pyval -> option string;
  format_name_to_converter : string -> option converter;
  unit_code_to_name : pyval -> option string
}.

(** ** The world: objects, transport, randomness *)

(** Request headers are mutable objects passed by reference: they live
    in a heap, and the code holds their address. *)
Abbreviation addr := nat.

Record world : Type := mkWorld {
  (** the request-header objects *)
  heap : gmap addr HapBlePduRequestHeader;
  (** [random.SystemRandom().getrandbits(8)]: the value of the n-th draw,
      and how many were drawn so far *)
  entropy : nat -> byte;
  draws : nat;
  (** what [_characteristic.write] was given so far, oldest first *)
  written : list bytes;
  (** what the coming reads of the characteristic return; a read with
      nothing left fails as a lost connection does *)
  incoming : list bytes;
  (** the attributes of the [HapCharacteristic] object that
      [_parse_response] reads and sets ([hap_format_converter] and the
      lower-cased names of parsed chunks) *)
  attributes : gmap string pyval
}.

Definition set_heap (f : gmap addr HapBlePduRequestHeader -> gmap addr HapBlePduRequestHeader)
    (w : world) : world :=
  mkWorld (f (heap w)) (entropy w) (draws w) (written w) (incoming w) (attributes w).
Definition set_draws (n : nat) (w : world) : world :=
  mkWorld (heap w) (entropy w) n (written w) (incoming w) (attributes w).
Definition set_written (l : list bytes) (w : world) : world :=
  mkWorld (heap w) (entropy w) (draws w) l (incoming w) (attributes w).
Definition set_incoming (l : list bytes) (w : world) : world :=
  mkWorld (heap w) (entropy w) (draws w) (written w) l (attributes w).
Definition set_attributes (f : gmap string pyval -> gmap string pyval)
    (w : world) : world :=
  mkWorld (heap w) (entropy w) (draws w) (written w) (incoming w) (f (attributes w)).

(** State and exceptions: an exception keeps the effects made before it. *)
Definition M (A : Type) : Type := world -> outcome A * world.

Definition ret {A} (a : A) : M A := fun w => (Ok a, w).
Definition raise {A} (e : error) : M A := fun w => (Raise e, w).
Definition out_of_fuel {A} : M A := fun w => (OutOfFuel, w).
Definition bind {A B} (c : M A) (k : A -> M B) : M B :=
  fun w =>
    match c w with
    | (Ok a, w') => k a w'
    | (Raise e, w') => (Raise e, w')
    | (OutOfFuel, w') => (OutOfFuel, w')
    end.
Definition lift {A} (o : outcome A) : M A := fun w => (o, w).

Declare Scope py_scope.
Delimit Scope py_scope with py.
Notation "x <- c ;; k" := (bind c (fun x => k))
  (at level 100, c at next level, right associativity) : py_scope.
Notation "c ;;; k" := (bind c (fun _ => k))
  (at level 100, right associativity) : py_scope.
Local Open Scope py_scope.

(** Dereference a header. *)
Definition deref (l : addr) : M HapBlePduRequestHeader :=
  fun w => match heap w !! l with
           | Some h => (Ok h, w)
           | None => (Raise AttributeError, w)
           end.

Definition update (l : addr) (f : HapBlePduRequestHeader -> HapBlePduRequestHeader) : M unit :=
  fun w => (Ok tt, set_heap (fun hp => match hp !! l with
                                       | Some h => <[l := f h]> hp
                                       | None => hp
                                       end) w).

Definition getrandbits8 : M Z :=
  fun w => (Ok (byte_to_Z (entropy w (draws w))), set_draws (S (draws w)) w).

Definition with_transaction_id (t : Z) (h : HapBlePduRequestHeader) :=
  mkRequestHeader (req_base h) (op_code h) (Some t) (cid_sid h).

(** [header.continuation = c]. *)
Definition with_continuation (c : bool) (h : HapBlePduRequestHeader) :=
  mkRequestHeader (mkHeader c (response h)) (op_code h) (_transaction_id h) (cid_sid h).

(** [HapBlePduRequestHeader.transaction_id]: generated at the first read,
    kept afterwards. *)
Definition request_transaction_id (l : addr) : M Z :=
  h <- deref l ;;
  match _transaction_id h with
  | Some t => ret t
  | None => t <- getrandbits8 ;; update l (with_transaction_id t) ;;; ret t
  end.

(** [HapBlePduRequestHeader.data]. *)
Definition request_header_data (l : addr) : M bytes :=
  h <- deref l ;;
  if continuation h then
    t <- request_transaction_id l ;;
    c <- lift (pack_B (control_field h)) ;;
    tb <- lift (pack_B t) ;;
    ret [c; tb]
  else
    t <- request_transaction_id l ;;
    c <- lift (pack_B (control_field h)) ;;
    o <- lift (pack_B (op_code h)) ;;
    tb <- lift (pack_B t) ;;
    ret ([c; o; tb] ++ cid_sid h).

(** [self._characteristic.write(data, withResponse=True)]. *)
Definition characteristic_write (data : bytes) : M unit :=
  fun w => (Ok tt, set_written (written w ++ [data]) w).

(** [HapCharacteristic._read]: [self._characteristic.read()]. *)
Definition _read : M bytes :=
  fun w => match incoming w with
           | r :: rest => (Ok r, set_incoming rest w)
           | [] => (Raise TransportError, w)
           end.

(** [val = getattr(self, key)]. *)
Definition getattr (key : string) : M pyval :=
  fun w => match attributes w !! key with
           | Some v => (Ok v, w)
           | None => (Raise AttributeError, w)
           end.

(** [setattr(self, key, val)]. *)
Definition setattr (key : string) (val : pyval) : M unit :=
  fun w => (Ok tt, set_attributes (insert key val) w).

(** [d[k]] on a table of [constants]. *)
Definition subscript {A} (o : option A) : M A :=
  match o with
  | Some a => ret a
  | None => raise KeyError
  end.

(** [f(b)] where [f] is any value. *)
Definition call (f : pyval) (b : bytes) : M pyval :=
  match f with
  | VFun g => lift (g b)
  | _ => raise TypeError
  end.

(** ** The fragmenter and the characteristic driver *)

Section Driver.
Context `{Imports}.

(** [HapBlePdu.max_len], and [max_len] of [fragment_tlvs]. *)
Definition max_len : Z := 512.

(** The list comprehension
    [[data for param_type, value in TLVs for data in prepare_tlv(param_type, value)]]. *)
Fixpoint prepared_tlvs (TLVs : list (Z * bytes)) : outcome (list bytes) :=
  match TLVs with
  | [] => Ok []
  | (param_type, value) :: rest =>
      match prepare_tlv param_type value with
      | Ok chunks =>
          match prepared_tlvs rest with
          | Ok more => Ok (chunks ++ more)
          | Raise e => Raise e
          | OutOfFuel => OutOfFuel
          end
      | Raise e => Raise e
      | OutOfFuel => OutOfFuel
      end
  end.

(** The inner loop of [fragment_tlvs]:
    [while prepared_tlvs and len(fragment_data) + len(prepared_tlvs[0]) < max_len:
       fragment_data += prepared_tlvs.pop(0)].
    Returns the fragment's bytes and the chunks left in the list. *)
Fixpoint fill_fragment (fragment_data : bytes) (prepared : list bytes)
    : bytes * list bytes :=
  match prepared with
  | [] => (fragment_data, [])
  | chunk :: rest =>
      if len fragment_data + len chunk <? max_len
      then fill_fragment (fragment_data ++ chunk) rest
      else (fragment_data, prepared)
  end.

(** The outer loop of [fragment_tlvs], [while prepared_tlvs: ...]. The
    generator's [yield data] hands [data] to the body of the [for] loop
    that consumes it, here [yield_]; the statement after the [yield]
    runs when the loop asks for the next fragment. One unit of fuel per
    turn of the loop. *)
Fixpoint fragment_loop (fuel : nat) (header : addr) (prepared : list bytes)
    (yield_ : bytes -> M unit) : M unit :=
  match prepared with
  | [] => ret tt
  | _ :: _ =>
      match fuel with
      | O => out_of_fuel
      | S fuel' =>
          let '(fragment_data, rest) := fill_fragment [] prepared in
          hd <- request_header_data header ;;
          n <- lift (pack_H (len fragment_data)) ;;
          yield_ (hd ++ n ++ fragment_data) ;;;
          update header (with_continuation true) ;;;
          fragment_loop fuel' header rest yield_
      end
  end.

(** [fragment_tlvs(header, TLVs)], consumed by a [for] loop of body
    [yield_]. *)
Definition fragment_tlvs (fuel : nat) (header : addr) (TLVs : list (Z * bytes))
    (yield_ : bytes -> M unit) : M unit :=
  prepared <- lift (prepared_tlvs TLVs) ;;
  let body_concat := concat prepared in
  hd <- request_header_data header ;;
  if len hd + 2 + len body_concat <=? max_len then
    hd' <- request_header_data header ;;
    n <- lift (pack_H (len body_concat)) ;;
    yield_ (hd' ++ n ++ body_concat)
  else
    fragment_loop fuel header prepared yield_.

(** [HapBlePdu.raw_data] and [HapBlePdu.fragmented], for a request
    header. *)
Definition raw_data (header : addr) (TLVs : list (Z * bytes)) : M bytes :=
  prepared <- lift (prepared_tlvs TLVs) ;;
  hd <- request_header_data header ;;
  ret (hd ++ concat prepared).

Definition fragmented (header : addr) (TLVs : list (Z * bytes)) : M bool :=
  raw <- raw_data header TLVs ;;
  ret (max_len <? len raw).

(** [HapCharacteristic._request(header, body)]. *)
Definition _request (fuel : nat) (header : addr) (body : list (Z * bytes)) : M unit :=
  match body with
  | [] =>
      hd <- request_header_data header ;;
      characteristic_write hd
  | _ :: _ => fragment_tlvs fuel header body characteristic_write
  end.

(** [HapCharacteristic._check_read_response(request_header, response)];
    the bytes read are [response_] here, [response] being the header's
    flag. *)
Definition _check_read_response (request_header : addr) (response_ : bytes)
    : M HapBlePduResponseHeader :=
  response_header <- lift (from_data response_) ;;
  if negb (response response_header) then raise InvalidResponse else
  tid <- request_transaction_id request_header ;;
  if negb (transaction_id response_header =? tid) then raise TransactionMismatch else
  if negb (status_code response_header =? HapBleStatusCodes_Success)
  then raise (ProtocolStatusError (status_code response_header)) else
  if 3 <? len response_ then
    body_length <- lift (unpack_H (take 2 (drop 3 response_))) ;;
    if negb (len (drop 5 response_) =? body_length) then raise LengthMismatch
    else ret response_header
  else ret response_header.

(** The last loop of [_parse_response]:
    [for key, val in new_attrs.items(): ...]. *)
Fixpoint add_new_attrs (new_attrs : list (string * pyval))
    (attributes : gmap string pyval) : M (gmap string pyval) :=
  match new_attrs with
  | [] => ret attributes
  | (key, val) :: rest =>
      let key := lower key in
      val <- match attributes !! key with
             | Some old => lift (py_add old val)
             | None => ret val
             end ;;
      setattr key val ;;;
      add_new_attrs rest (<[key := val]> attributes)
  end.

(** One turn of the main loop of [_parse_response]. *)
Definition parse_chunk (chunk : Z * Z * bytes) (attributes : gmap string pyval)
    : M (gmap string pyval) :=
  let '(body_type, length_, bytes_) := chunk in
  if negb (len bytes_ =? length_) then raise InvalidResponseLength else
  name <- subscript (HAP_param_type_code_to_name body_type) ;;
  converter <-
    (if bool_decide (name ∈ ["GATT_Valid_Range"; "HAP_Step_Value_Descriptor"; "Value"])
     then getattr "hap_format_converter"
     else c <- subscript (HAP_param_name_to_converter name) ;; ret (VFun c)) ;;
  new_attrs <-
    (if bool_decide (name = "GATT_Presentation_Format_Descriptor") then
       codes <- call converter bytes_ ;;
       pair <- lift (py_unpack2 codes) ;;
       let '(format_code, unit_code) := pair in
       format_name <- subscript (format_code_to_name format_code) ;;
       format_converter <- subscript (format_name_to_converter format_name) ;;
       unit_name <- subscript (unit_code_to_name unit_code) ;;
       ret [("HAP_Format", VStr format_name);
            ("HAP_Format_Converter", VFun format_converter);
            ("HAP_Unit", VStr unit_name)]
     else if bool_decide (name = "GATT_Valid_Range") then
       let half := (length bytes_ `div` 2)%nat in
       low <- call converter (take half bytes_) ;;
       high <- call converter (drop half bytes_) ;;
       ret [("min_value", low); ("max_value", high)]
     else
       v <- call converter bytes_ ;;
       ret [(name, v)]) ;;
  add_new_attrs new_attrs attributes.

Fixpoint parse_chunks (chunks : list (Z * Z * bytes))
    (attributes : gmap string pyval) : M (gmap string pyval) :=
  match chunks with
  | [] => ret attributes
  | chunk :: rest =>
      attributes' <- parse_chunk chunk attributes ;;
      parse_chunks rest attributes'
  end.

(** [HapCharacteristic._parse_response(response)]. *)
Definition _parse_response (response : bytes) : M (gmap string pyval) :=
  parse_chunks (iterate_tvl (drop 5 response)) ∅.

(** [HapCharacteristic.write(request_header, TLVs)]. *)
Definition write (fuel : nat) (request_header : addr) (TLVs : list (Z * bytes))
    : M (gmap string pyval) :=
  _request fuel request_header TLVs ;;;
  response <- _read ;;
  response_header <- _check_read_response request_header response ;;
  response_parsed <- _parse_response response ;;
  if continuation response_header then raise NotSupported
  else ret response_parsed.

(** [HapCharacteristic.read(request_header)]. *)
Definition read (fuel : nat) (request_header : addr) : M (gmap string pyval) :=
  write fuel request_header [].

(** [b''.join(data for ktlv in kTLVs for data in prepare_tlv( *ktlv))]. *)
Definition prepared_ktlvs (kTLVs : list (Z * bytes)) : outcome bytes :=
  match prepared_tlvs kTLVs with
  | Ok chunks => Ok (concat chunks)
  | Raise e => Raise e
  | OutOfFuel => OutOfFuel
  end.

(** [HapCharacteristic.write_ktlvs(request_header, kTLVs)]: the
    [while True] loop, one unit of fuel per turn, [assembled] carried
    from turn to turn. *)
Fixpoint write_ktlvs_loop (fuel : nat) (request_header : addr)
    (kTLVs : list (Z * bytes)) (assembled : gmap string pyval)
    : M (gmap string pyval) :=
  match fuel with
  | O => out_of_fuel
  | S fuel' =>
      prepared <- lift (prepared_ktlvs kTLVs) ;;
      one <- lift (pack_B 1) ;;
      let TLVs := [(HapParamTypes_Return_Response, [one]);
                   (HapParamTypes_Value, prepared)] in
      response_parsed <- write fuel request_header TLVs ;;
      match response_parsed !! "value" with
      | None => raise PairingProtocolError
      | Some value =>
          parsed_ktlvs <- lift (parse_ktlvs value) ;;
          match parsed_ktlvs !! "kTLVType_FragmentData",
                parsed_ktlvs !! "kTLVType_FragmentLast" with
          | Some data, _ =>
              v <- lift (py_add (default (VBytes []) (assembled !! "kTLVType_FragmentData"))
                                data) ;;
              write_ktlvs_loop fuel' request_header
                [(PairingKTlvValues_kTLVType_FragmentData, [])]
                (<["kTLVType_FragmentData" := v]> assembled)
          | None, Some last =>
              so_far <- subscript (assembled !! "kTLVType_FragmentData") ;;
              v <- lift (py_add so_far last) ;;
              ret (<["kTLVType_FragmentData" := v]> assembled)
          | None, None => ret parsed_ktlvs
          end
      end
  end.

Definition write_ktlvs (fuel : nat) (request_header : addr)
    (kTLVs : list (Z * bytes)) : M (gmap string pyval) :=
  write_ktlvs_loop fuel request_header kTLVs ∅.

End Driver.

(** ** The imported helpers, as the specification describes them *)

(** Modelled from the spec: [utils.prepare_tlv] is not among the
    sources. Specification, section 6: "encodeTlv(tag, value) -> ordered
    sequence of wire chunks, each <= 255 value bytes with its own
    [tag,length,bytes] framing; values longer than 255 bytes are split
    across chunks sharing one tag." [split_value] cuts the value in
    slices of 255 bytes, the last one shorter; an empty value is one
    slice, so one chunk of length 0. *)
Fixpoint split_value (fuel : nat) (value : bytes) : list bytes :=
  match fuel with
  | O => [value]
  | S fuel' =>
      if (length value <=? 255)%nat then [value]
      else take 255 value :: split_value fuel' (drop 255 value)
  end.

Definition tlv_chunk (tag : Z) (value : bytes) : outcome bytes :=
  match pack_B tag, pack_B (len value) with
  | Ok t, Ok n => Ok (t :: n :: value)
  | _, _ => Raise StructError
  end.

Fixpoint tlv_chunks (tag : Z) (slices : list bytes) : outcome (list bytes) :=
  match slices with
  | [] => Ok []
  | value :: rest =>
      match tlv_chunk tag value, tlv_chunks tag rest with
      | Ok chunk, Ok more => Ok (chunk :: more)
      | Raise e, _ => Raise e
      | _, Raise e => Raise e
      | _, _ => OutOfFuel
      end
  end.

Definition spec_prepare_tlv (param_type : Z) (value : bytes) : outcome (list bytes) :=
  tlv_chunks param_type (split_value (length value) value).

(** Modelled from the spec: [utils.iterate_tvl] is not among the
    sources. Specification, section 6: "decodeTlvStream(bytes) -> lazy,
    finite sequence of (tag, length, value)", and section 4.4: "Scan the
    body as a front-to-back sequence of (tag, length, bytes) chunks".
    The value of a chunk is what is left of the declared length. *)
Fixpoint spec_iterate_tvl_from (fuel : nat) (data : bytes) : list (Z * Z * bytes) :=
  match fuel with
  | O => []
  | S fuel' =>
      match data with
      | tag :: n :: rest =>
          (byte_to_Z tag, byte_to_Z n, take (Z.to_nat (byte_to_Z n)) rest)
          :: spec_iterate_tvl_from fuel' (drop (Z.to_nat (byte_to_Z n)) rest)
      | _ => []
      end
  end.

Definition spec_iterate_tvl (data : bytes) : list (Z * Z * bytes) :=
  spec_iterate_tvl_from (length data) data.

(** Modelled from the spec: [constants.PairingKTlvValues] is not among
    the sources. The two names [write_ktlvs] looks for, under the tags
    the HomeKit protocol gives them. *)
Definition spec_ktlv_name (tag : Z) : option string :=
  if tag =? 12 then Some "kTLVType_FragmentData"
  else if tag =? 13 then Some "kTLVType_FragmentLast"
  else if tag =? 6 then Some "kTLVType_State"
  else None.

(** Modelled from the spec: [utils.parse_ktlvs] is not among the
    sources. Specification, section 4.5: the value "is itself parsed as
    a nested kTLV stream"; the result is a dictionary from the names of
    the kTLV types to their bytes, chunks of one name put end to end. *)
Fixpoint spec_parse_ktlvs_from (chunks : list (Z * Z * bytes))
    (tlvs : gmap string pyval) : outcome (gmap string pyval) :=
  match chunks with
  | [] => Ok tlvs
  | (tag, _, bytes_) :: rest =>
      match spec_ktlv_name tag with
      | None => Raise KeyError
      | Some name =>
          match tlvs !! name with
          | None => spec_parse_ktlvs_from rest (<[name := VBytes bytes_]> tlvs)
          | Some old =>
              match py_add old (VBytes bytes_) with
              | Ok v => spec_parse_ktlvs_from rest (<[name := v]> tlvs)
              | Raise e => Raise e
              | OutOfFuel => OutOfFuel
              end
          end
      end
  end.

Definition spec_parse_ktlvs (value : pyval) : outcome (gmap string pyval) :=
  match value with
  | VBytes b => spec_parse_ktlvs_from (spec_iterate_tvl b) ∅
  | _ => Raise TypeError
  end.

(** Modelled from the spec: [constants.identity] is not among the
    sources; the converter that leaves the bytes as they are. *)
Definition spec_identity : converter := fun b => Ok (VBytes b).

(** Modelled from the spec: [constants.HAP_param_type_code_to_name] is
    not among the sources. The parameter names [ble.py] itself mentions,
    under the tags the HomeKit protocol gives them. *)
Definition spec_param_name (code : Z) : option string :=
  if code =? 1 then Some "Value"
  else if code =? 9 then Some "Return_Response"
  else if code =? 12 then Some "GATT_Presentation_Format_Descriptor"
  else if code =? 13 then Some "GATT_Valid_Range"
  else if code =? 14 then Some "HAP_Step_Value_Descriptor"
  else None.

(** Modelled from the spec: the converter of the presentation-format
    descriptor, section 4.4: it "decodes to (formatCode, unitCode)"; the
    format is the first byte, the unit the 16-bit little-endian number
    in the third and fourth. *)
Definition spec_format_descriptor : converter := fun b =>
  match b with
  | fmt :: _ :: lo :: hi :: _ =>
      Ok (VTuple [VInt (byte_to_Z fmt); VInt (byte_to_Z lo + 256 * byte_to_Z hi)])
  | _ => Raise StructError
  end.

Definition spec_param_converter (name : string) : option converter :=
  if bool_decide (name = "GATT_Presentation_Format_Descriptor")
  then Some spec_format_descriptor
  else if bool_decide (name = "Return_Response") then Some spec_identity
  else None.

Definition spec_uint8 : converter := fun b =>
  match b with
  | [x] => Ok (VInt (byte_to_Z x))
  | _ => Raise StructError
  end.

Definition spec_format_name (code : pyval) : option string :=
  match code with
  | VInt 4 => Some "uint8"
  | VInt 27 => Some "data"
  | _ => None
  end.

Definition spec_format_converter (name : string) : option converter :=
  if bool_decide (name = "uint8") then Some spec_uint8
  else if bool_decide (name = "data") then Some spec_identity
  else None.

Definition spec_unit_name (code : pyval) : option string :=
  match code with
  | VInt 9984 => Some "unitless"
  | _ => None
  end.

(** Modelled from the spec: [constants.py] and [utils.py] are not among
    the sources; the definitions above put together, with the status
    code of success the zero the protocol gives it. *)
Definition spec_imports : Imports := {|
  prepare_tlv := spec_prepare_tlv;
  iterate_tvl := spec_iterate_tvl;
  parse_ktlvs := spec_parse_ktlvs;
  identity := spec_identity;
  HapBleStatusCodes_Success := 0;
  HapParamTypes_Return_Response := 9;
  HapParamTypes_Value := 1;
  PairingKTlvValues_kTLVType_FragmentData := 12;
  HAP_param_type_code_to_name := spec_param_name;
  HAP_param_name_to_converter := spec_param_converter;
  format_code_to_name := spec_format_name;
  format_name_to_converter := spec_format_converter;
  unit_code_to_name := spec_unit_name
|}.

(** ** Sample objects *)

(** A fresh request header: opcode 1, instance identifier 5, the flags
    and the transaction identifier left to their defaults. *)
Definition sample_header : HapBlePduRequestHeader :=
  mkRequestHeader (mkHeader false false) 1 None [x05; x00].

(** A characteristic as [__init__] leaves it, one request header at
    address 0, the accessory about to answer with [responses]. *)
Definition sample_world (responses : list bytes) : world :=
  mkWorld {[0%nat := sample_header]} (fun _ => x2a) 0 [] responses
    {["hap_format_converter" := VFun spec_identity]}.

(** Three parameters of 255, 248 and 255 bytes, and the chunks the
    codec makes of them: 257, 250 and 257 bytes, 764 in all. *)
Definition big_TLVs : list (Z * bytes) :=
  [(1, replicate 255 x00); (1, replicate 248 x00); (1, replicate 255 x00)].

Definition big_chunks : list bytes :=
  [x01 :: xff :: replicate 255 x00;
   x01 :: xf8 :: replicate 248 x00;
   x01 :: xff :: replicate 255 x00].

(** * Notions used in the statements *)

(** The reserved bits of a control byte: bit 0 and bits 2 to 6. *)
Definition reserved_bits : list Z := [0; 2; 3; 4; 5; 6].

Definition reserved_bit_set (b : byte) : bool :=
  existsb (Z.testbit (byte_to_Z b)) reserved_bits.

(** A header that [pack] accepts: the opcode and the transaction
    identifier, once chosen, are 8-bit. *)
Definition wf_header (h : HapBlePduRequestHeader) : Prop :=
  0 <= op_code h <= 255 /\
  forall t, _transaction_id h = Some t -> 0 <= t <= 255.

(** The bytes [data] gives for a header whose transaction identifier
    is [t]. *)
Definition header_wire (h : HapBlePduRequestHeader) (t : Z) : outcome bytes :=
  match pack_B (control_field h) with
  | Ok c =>
      if continuation h then
        match pack_B t with
        | Ok tb => Ok [c; tb]
        | Raise e => Raise e
        | OutOfFuel => OutOfFuel
        end
      else
        match pack_B (op_code h) with
        | Ok o =>
            match pack_B t with
            | Ok tb => Ok ([c; o; tb] ++ cid_sid h)
            | Raise e => Raise e
            | OutOfFuel => OutOfFuel
            end
        | Raise e => Raise e
        | OutOfFuel => OutOfFuel
        end
  | Raise e => Raise e
  | OutOfFuel => OutOfFuel
  end.

(** The world once the header at [l] has its transaction identifier:
    nothing moves if it had one, else one value is drawn and kept. *)
Definition settled (l : addr) (h : HapBlePduRequestHeader) (w : world) : world :=
  match _transaction_id h with
  | Some _ => w
  | None =>
      set_heap (insert l (with_transaction_id (byte_to_Z (entropy w (draws w))) h))
        (set_draws (S (draws w)) w)
  end.

Definition settled_tid (h : HapBlePduRequestHeader) (w : world) : Z :=
  match _transaction_id h with
  | Some t => t
  | None => byte_to_Z (entropy w (draws w))
  end.

(** Which chunks the inner loop takes when the fragment already holds
    [n] bytes, and which it leaves. *)
Fixpoint fill_chunks (n : Z) (prepared : list bytes) : list bytes * list bytes :=
  match prepared with
  | [] => ([], [])
  | chunk :: rest =>
      if n + len chunk <? max_len
      then (chunk :: (fill_chunks (n + len chunk) rest).1, (fill_chunks (n + len chunk) rest).2)
      else ([], prepared)
  end.

(** [data] is the fragment made of the header bytes [hd] and the whole
    chunks [chunks]: header, 2-byte length of the chunks, the chunks. *)
Definition is_fragment (hd : bytes) (chunks : list bytes) (data : bytes) : Prop :=
  exists n : bytes,
    pack_H (len (concat chunks)) = Ok n /\ data = hd ++ n ++ concat chunks.

(** The fragments [fs] carry the groups of chunks [gs], the first under
    the header bytes [hd], the following ones under [hd']. *)
Definition are_fragments (hd hd' : bytes) (gs : list (list bytes)) (fs : list bytes)
    : Prop :=
  match gs, fs with
  | [], [] => True
  | g :: gs', f :: fs' => is_fragment hd g f /\ Forall2 (is_fragment hd') gs' fs'
  | _, _ => False
  end.

(** The world after the fragment loop: the fragments [fs] were written
    and, if there was one, the header at [l] is now a continuation
    header. *)
Definition after_fragments (l : addr) (h : HapBlePduRequestHeader)
    (fs : list bytes) (w : world) : world :=
  set_written (written w ++ fs)
    (match fs with
     | [] => w
     | _ :: _ => set_heap (insert l (with_continuation true h)) w
     end).

(** The length of a request header on the wire. *)
Definition header_len (h : HapBlePduRequestHeader) : Z :=
  if continuation h then 2 else 3 + len (cid_sid h).

(** Partial correctness of a computation: from a world where [P] holds,
    a value [a] comes with a world where [Q a] holds. *)
Definition hoare {A} (P : world -> Prop) (c : M A) (Q : A -> world -> Prop) : Prop :=
  forall w a w', P w -> c w = (Ok a, w') -> Q a w'.

(** Computations that leave the world as it is. *)
Definition pure_step {A} (c : M A) : Prop :=
  forall w o w', c w = (o, w') -> w' = w.

(** A response to a read, continuation flag and response flag set
    (control byte 0x82), the request's transaction identifier, status 0,
    and a body of 3 bytes: one Value chunk holding the byte 7. *)
Definition continued_response : bytes :=
  [x82; x2a; x00; x03; x00; x01; x01; x07].

(** A response whose Value parameter is a kTLV stream of one entry, of
    type [tag] and of the one byte [b]: response flag, the request's
    transaction identifier, status 0, 5 bytes of body. *)
Definition ktlv_response (tag b : byte) : bytes :=
  [x02; x2a; x00; x05; x00; x01; x03; tag; x01; b].

(** FragmentData is the kTLV type 12, FragmentLast the type 13. *)
Definition fragment_data_response (b : byte) : bytes := ktlv_response x0c b.
Definition fragment_last_response (b : byte) : bytes := ktlv_response x0d b.

Section Notions.
Context `{Imports}.

(** The checks of [_check_read_response] once the header is decoded, in
    the order the code makes them. *)
Definition checked (rh : HapBlePduResponseHeader) (tid : Z) (data : bytes)
    : outcome HapBlePduResponseHeader :=
  if negb (response rh) then Raise InvalidResponse
  else if negb (transaction_id rh =? tid) then Raise TransactionMismatch
  else if negb (status_code rh =? HapBleStatusCodes_Success)
       then Raise (ProtocolStatusError (status_code rh))
  else if 3 <? len data then
    match unpack_H (take 2 (drop 3 data)) with
    | Ok body_length =>
        if negb (len (drop 5 data) =? body_length) then Raise LengthMismatch
        else Ok rh
    | Raise e => Raise e
    | OutOfFuel => OutOfFuel
    end
  else Ok rh.

(** Every attribute of the map under construction is an attribute of the
    characteristic object, with the same value. *)
Definition cached (attrs : gmap string pyval) (w : world) : Prop :=
  attrs ⊆ attributes w.

End Notions.

(** ** Notions used in the statements on the rest of the code *)

(** Whatever its outcome, the computation [c] takes a world to one that
    is in relation [R] with it. *)
Definition keeps {A} (R : world -> world -> Prop) (c : M A) : Prop :=
  forall w o w', c w = (o, w') -> R w w'.

(** Nothing was read, no attribute of the characteristic was set, and
    what was written was written after what was there. *)
Definition only_writes (w w' : world) : Prop :=
  incoming w' = incoming w
  /\ attributes w' = attributes w
  /\ exists more : list bytes, written w' = written w ++ more.

(** The transport and the attributes of the characteristic are as they
    were. *)
Definition same_transport_and_attributes (w w' : world) : Prop :=
  written w' = written w
  /\ incoming w' = incoming w
  /\ attributes w' = attributes w.

(** Only the attributes of the characteristic changed, and none was
    removed. *)
Definition only_sets_attributes (w w' : world) : Prop :=
  heap w' = heap w
  /\ draws w' = draws w
  /\ written w' = written w
  /\ incoming w' = incoming w
  /\ dom (attributes w) ⊆ dom (attributes w').

(** Two parameters of 255 and 247 bytes: chunks of 257 and 249 bytes,
    506 in all, 511 with the 5-byte header. *)
Definition edge_TLVs : list (Z * bytes) :=
  [(1, replicate 255 x00); (1, replicate 247 x00)].

Definition edge_chunks : list bytes :=
  [x01 :: xff :: replicate 255 x00; x01 :: xf7 :: replicate 247 x00].


(** Responses with a body, after the 5 bytes of header and length: two
    Value chunks; a presentation-format descriptor (format 4, unit
    0x2700) and a Value chunk; a valid-range chunk of 3 bytes; a Value
    chunk followed by one that declares 5 bytes and has 1. *)
Definition two_values_response : bytes :=
  [x02; x2a; x00; x06; x00; x01; x01; x07; x01; x01; x08].

Definition described_value_response : bytes :=
  [x02; x2a; x00; x09; x00; x0c; x04; x04; x00; x00; x27; x01; x01; x07].

Definition valid_range_response : bytes :=
  [x02; x2a; x00; x05; x00; x0d; x03; x01; x02; x03].

Definition short_chunk_response : bytes :=
  [x02; x2a; x00; x06; x00; x01; x01; x07; x01; x05; x08].

Section ExchangeNotions.
Context `{Imports}.

(** The two outer parameters [write_ktlvs] sends in a round, around
    the encoded kTLVs. *)
Definition ktlv_round_TLVs (prepared : bytes) : list (Z * bytes) :=
  [(HapParamTypes_Return_Response, [x01]); (HapParamTypes_Value, prepared)].

(** One round of [write_ktlvs] from the world [w]: the kTLVs [kTLVs]
    are sent, the response has a [value], and this value parses to the
    kTLVs [parsed]; [w'] is the world after the round. *)
Definition ktlv_round (fuel : nat) (l : addr) (kTLVs : list (Z * bytes)) (w : world)
    (parsed : gmap string pyval) (w' : world) : Prop :=
  exists (prepared : bytes) (response_parsed : gmap string pyval) (value : pyval),
    prepared_ktlvs kTLVs = Ok prepared
    /\ write fuel l (ktlv_round_TLVs prepared) w = (Ok response_parsed, w')
    /\ response_parsed !! "value" = Some value
    /\ parse_ktlvs value = Ok parsed.

(** Rounds whose responses hold FragmentData: starting with [fuel]
    turns left, the kTLVs [kTLVs] to send and the world [w], the
    responses gave the fragments [ds] in this order; then [fuel'] turns
    are left, the kTLVs [kTLVs'] are to be sent next, and the world is
    [w']. After a FragmentData response the next kTLVs are one empty
    FragmentData. *)
Inductive data_rounds (l : addr)
    : nat -> list (Z * bytes) -> world -> list bytes ->
      nat -> list (Z * bytes) -> world -> Prop :=
| data_rounds_none (fuel : nat) (kTLVs : list (Z * bytes)) (w : world) :
    data_rounds l fuel kTLVs w [] fuel kTLVs w
| data_rounds_more (fuel : nat) (kTLVs : list (Z * bytes)) (w w1 : world)
    (parsed : gmap string pyval) (d : bytes) (ds : list bytes)
    (fuel' : nat) (kTLVs' : list (Z * bytes)) (w' : world) :
    ktlv_round (S fuel) l kTLVs w parsed w1 ->
    parsed !! "kTLVType_FragmentData" = Some (VBytes d) ->
    data_rounds l fuel [(PairingKTlvValues_kTLVType_FragmentData, [])] w1 ds
      fuel' kTLVs' w' ->
    data_rounds l (S fuel) kTLVs w (d :: ds) fuel' kTLVs' w'.

(** The accumulator of [write_ktlvs] once the fragments [ds] were
    received: empty before the first, then the one entry
    [kTLVType_FragmentData]. *)
Definition assembled_after (ds : list bytes) : gmap string pyval :=
  match ds with
  | [] => ∅
  | _ :: _ => {["kTLVType_FragmentData" := VBytes (concat ds)]}
  end.

End ExchangeNotions.

(** ** [HapCharacteristic]: the cached instance identifier and signature *)

Section Handle.
Context `{Imports}.

(** [HapCharacteristic._read_cid]: the read of the characteristic's
    instance-identifier descriptor, through the transport; any
    computation on the world. *)
Variable _read_cid : M bytes.

(** [constants.HapBleOpCodes.Characteristic_Signature_Read]. *)
Variable Characteristic_Signature_Read : Z.

(** The characteristic object: the world it acts on, and the two fields
    [__init__] sets to [None]. The names [_parse_response] sets are
    taken to differ from these two. *)
Record HapCharacteristic : Type := mkCharacteristic {
  env : world;
  _cid : option bytes;
  _signature : option (gmap string pyval)
}.

(** [HapCharacteristic.cid]. *)
Definition cid (c : HapCharacteristic) : outcome bytes * HapCharacteristic :=
  match _cid c with
  | Some b => (Ok b, c)
  | None =>
      match _read_cid (env c) with
      | (Ok b, w') => (Ok b, mkCharacteristic w' (Some b) (_signature c))
      | (Raise e, w') => (Raise e, mkCharacteristic w' None (_signature c))
      | (OutOfFuel, w') => (OutOfFuel, mkCharacteristic w' None (_signature c))
      end
  end.

(** A new request-header object: it takes an address no object has. *)
Definition new_header (h : HapBlePduRequestHeader) (w : world) : addr * world :=
  let l := fresh (dom (heap w)) in (l, set_heap (insert l h) w).

(** [HapBlePduRequestHeader(cid_sid=cid, op_code=op_code)], the other
    arguments at their defaults. *)
Definition default_header (cid_sid : bytes) (op_code : Z) : HapBlePduRequestHeader :=
  mkRequestHeader (mkHeader false false) op_code None cid_sid.

(** [HapCharacteristic.signature]. *)
Definition signature (fuel : nat) (c : HapCharacteristic)
    : outcome (gmap string pyval) * HapCharacteristic :=
  match _signature c with
  | Some s => (Ok s, c)
  | None =>
      match cid c with
      | (Ok b, c1) =>
          let '(l, w1) :=
            new_header (default_header b Characteristic_Signature_Read) (env c1) in
          match read fuel l w1 with
          | (Ok s, w2) => (Ok s, mkCharacteristic w2 (_cid c1) (Some s))
          | (Raise e, w2) => (Raise e, mkCharacteristic w2 (_cid c1) None)
          | (OutOfFuel, w2) => (OutOfFuel, mkCharacteristic w2 (_cid c1) None)
          end
      | (Raise e, c1) => (Raise e, c1)
      | (OutOfFuel, c1) => (OutOfFuel, c1)
      end
  end.

End Handle.

(** ** [HapAccessory]: the cache of GATT characteristics *)

(** What [HapAccessory.charateristic] gives: a characteristic, the
    [IndexError] of [[0]] on an empty list, or an exception of the
    peripheral. *)
Inductive lookup_result (A : Type) : Type :=
| Item (a : A)
| IndexError
| Raised (e : error).
Arguments Item {A} a.
Arguments IndexError {A}.
Arguments Raised {A} e.

Section Accessory.

(** The characteristic objects of bluepy and the state of its
    peripheral. *)
Variables (Characteristic Peripheral : Type).

(** [peripheral.getCharacteristics(uuid=uuid)]: a list, or an
    exception. *)
Variable getCharacteristics :
  string -> Peripheral -> (error + list Characteristic) * Peripheral.

(** [HapAccessory]. *)
Record HapAccessory : Type := mkAccessory {
  address : string;
  address_type : string;
  peripheral : Peripheral;
  _characteristics : gmap string Characteristic
}.

(** [HapAccessory.charateristic(uuid)]. *)
Definition charateristic (uuid : string) (a : HapAccessory)
    : lookup_result Characteristic * HapAccessory :=
  match _characteristics a !! uuid with
  | Some c => (Item c, a)
  | None =>
      match getCharacteristics uuid (peripheral a) with
      | (inl e, p) =>
          (Raised e, mkAccessory (address a) (address_type a) p (_characteristics a))
      | (inr [], p) =>
          (IndexError, mkAccessory (address a) (address_type a) p (_characteristics a))
      | (inr (c :: _), p) =>
          (Item c, mkAccessory (address a) (address_type a) p
                     (<[uuid := c]> (_characteristics a)))
      end
  end.

End Accessory.

(** A peripheral that counts the calls made to it and knows one
    characteristic, numbered 7, under the UUID "c1". *)
Definition sample_getCharacteristics (uuid : string) (calls : nat)
    : (error + list nat) * nat :=
  (if bool_decide (uuid = "c1") then inr [7%nat] else inr [], S calls).

(** A descriptor read that gives the instance identifier 5. *)
Definition sample_read_cid : M bytes := ret [x05; x00].

(** * Properties *)

(** ** Packing *)

Lemma pack_B_byte (b : byte) : pack_B (byte_to_Z b) = Ok b.
Proof. destruct b; reflexivity. Qed.

Lemma pack_B_in_range (z : Z) :
  0 <= z <= 255 -> exists b : byte, pack_B z = Ok b /\ byte_to_Z b = z.
Proof.
  intros Hz. unfold pack_B.
  replace ((0 <=? z) && (z <=? 255)) with true
    by (symmetry; apply andb_true_iff; split; apply Z.leb_le; lia).
  destruct (Byte.of_N (Z.to_N z)) as [b|] eqn:E.
  - exists b. split; [reflexivity|].
    apply Byte.to_of_N in E. unfold byte_to_Z. rewrite E. lia.
  - apply Byte.of_N_None_iff in E.
    apply N2Z.inj_lt in E. rewrite Z2N.id in E by lia. simpl in E. lia.
Qed.

Lemma pack_H_in_range (z : Z) :
  0 <= z <= 65535 -> exists lo hi : byte, pack_H z = Ok [lo; hi].
Proof.
  intros Hz. unfold pack_H.
  replace ((0 <=? z) && (z <=? 65535)) with true
    by (symmetry; apply andb_true_iff; split; apply Z.leb_le; lia).
  destruct (Byte.of_N (Z.to_N (z mod 256))) as [lo|] eqn:E1.
  - destruct (Byte.of_N (Z.to_N (z / 256))) as [hi|] eqn:E2; [eauto|].
    apply Byte.of_N_None_iff in E2.
    assert (0 <= z / 256 < 256)
      by (split; [apply Z.div_pos|apply Z.div_lt_upper_bound]; lia).
    apply N2Z.inj_lt in E2. rewrite Z2N.id in E2 by lia. simpl in E2. lia.
  - apply Byte.of_N_None_iff in E1.
    pose proof (Z.mod_pos_bound z 256 ltac:(lia)).
    apply N2Z.inj_lt in E1. rewrite Z2N.id in E1 by lia. simpl in E1. lia.
Qed.

Lemma pack_H_length (z : Z) (b : bytes) : pack_H z = Ok b -> len b = 2.
Proof.
  unfold pack_H. destruct ((0 <=? z) && (z <=? 65535)); [|discriminate].
  destruct (Byte.of_N _); [|discriminate].
  destruct (Byte.of_N _); [|discriminate].
  intros [= <-]. reflexivity.
Qed.

Lemma len_app {A} (l k : list A) : len (l ++ k) = len l + len k.
Proof. unfold len. rewrite length_app. lia. Qed.

Lemma len_nonneg {A} (l : list A) : 0 <= len l.
Proof. unfold len. lia. Qed.

(** ** The control byte *)

Lemma control_field_value (h : HapBlePduHeader) :
  control_field h
  = (if continuation h then 128 else 0) + (if response h then 2 else 0).
Proof. destruct h as [[] []]; reflexivity. Qed.

Lemma from_data_control_byte (b t s : byte) (rest : bytes) :
  from_data (b :: t :: s :: rest)
  = if reserved_bit_set b then Raise MalformedHeader
    else Ok (mkResponseHeader
               (mkHeader (Z.testbit (byte_to_Z b) 7) (Z.testbit (byte_to_Z b) 1))
               (byte_to_Z t) (byte_to_Z s)).
Proof. destruct b; reflexivity. Qed.

Lemma from_data_short (data : bytes) :
  (length data < 3)%nat -> from_data data = Raise StructError.
Proof.
  intros Hl. destruct data as [|a [|b [|c rest]]]; try reflexivity.
  simpl in Hl. lia.
Qed.

(** C8. Encoding a response header and decoding it again gives back the
    pair (continuation, isResponse), for the four pairs: the control byte
    is 128 * continuation + 2 * isResponse, so continuation is bit 7 and
    isResponse bit 1, and every other bit is zero. Decoding a response
    that starts with a byte in which bit 0 or one of the bits 2 to 6 is
    set raises the invalid-control-field error (MalformedHeader). *)
Theorem control_byte_round_trip (c r : bool) (t s : byte) (rest : bytes) :
  let h := mkResponseHeader (mkHeader c r) (byte_to_Z t) (byte_to_Z s) in
  (exists d : bytes,
      response_header_data h = Ok d /\ from_data (d ++ rest) = Ok h)
  /\ Z.testbit (control_field h) 7 = c
  /\ Z.testbit (control_field h) 1 = r
  /\ Forall (fun i => Z.testbit (control_field h) i = false) reserved_bits
  /\ (forall (b : byte) (i : Z),
         In i reserved_bits -> Z.testbit (byte_to_Z b) i = true ->
         from_data (b :: t :: s :: rest) = Raise MalformedHeader).
Proof.
  intros h. repeat split.
  - unfold response_header_data, h; cbn [resp_base transaction_id status_code].
    rewrite !pack_B_byte.
    destruct c, r; (eexists; split; [reflexivity|]);
      cbn [app]; rewrite from_data_control_byte; reflexivity.
  - destruct c, r; reflexivity.
  - destruct c, r; reflexivity.
  - destruct c, r; repeat constructor.
  - intros b i Hi Hbit. rewrite from_data_control_byte.
    assert (reserved_bit_set b = true) as ->; [|reflexivity].
    unfold reserved_bit_set. apply existsb_exists. eauto.
Qed.

Lemma control_byte_round_trip_witness :
  from_data [x01; x2a; x00] = Raise MalformedHeader.
Proof.
  refine (proj2 (proj2 (proj2 (proj2
    (control_byte_round_trip false true x2a x00 []))))
    x01 0 _ _).
  - simpl; auto.
  - reflexivity.
Defined.

(** ** Running the monad *)

Lemma bind_run {A B} (c : M A) (k : A -> M B) (w w' : world) (a : A) :
  c w = (Ok a, w') -> bind c k w = k a w'.
Proof. unfold bind. intros ->. reflexivity. Qed.

Lemma bind_raise {A B} (c : M A) (k : A -> M B) (w w' : world) (e : error) :
  c w = (Raise e, w') -> bind c k w = (Raise e, w').
Proof. unfold bind. intros ->. reflexivity. Qed.

Lemma bind_out_of_fuel {A B} (c : M A) (k : A -> M B) (w w' : world) :
  c w = (OutOfFuel, w') -> bind c k w = (OutOfFuel, w').
Proof. unfold bind. intros ->. reflexivity. Qed.

(** ** Request headers on the wire *)

Lemma pack_B_control_field (h : HapBlePduHeader) :
  exists c : byte,
    pack_B (control_field h) = Ok c
    /\ Z.testbit (byte_to_Z c) 7 = continuation h
    /\ Z.testbit (byte_to_Z c) 1 = response h.
Proof. destruct h as [[] []]; eexists; repeat split. Qed.

Lemma byte_to_Z_range (b : byte) : 0 <= byte_to_Z b <= 255.
Proof. destruct b; vm_compute; split; discriminate. Qed.

Lemma settled_tid_range (h : HapBlePduRequestHeader) (w : world) :
  wf_header h -> 0 <= settled_tid h w <= 255.
Proof.
  intros [_ Ht]. unfold settled_tid.
  destruct (_transaction_id h) as [t|]; [auto|apply byte_to_Z_range].
Qed.

Lemma settled_heap (l : addr) (h : HapBlePduRequestHeader) (w : world) :
  heap w !! l = Some h ->
  heap (settled l h w) !! l = Some (with_transaction_id (settled_tid h w) h).
Proof.
  intros Hl. unfold settled, settled_tid.
  destruct h as [b o [t|] c]; cbn.
  - exact Hl.
  - apply lookup_insert_eq.
Qed.

Lemma settled_frame (l : addr) (h : HapBlePduRequestHeader) (w : world) :
  written (settled l h w) = written w
  /\ incoming (settled l h w) = incoming w
  /\ attributes (settled l h w) = attributes w
  /\ entropy (settled l h w) = entropy w.
Proof. unfold settled. destruct (_transaction_id h); repeat split. Qed.

Lemma request_transaction_id_run (w : world) (l : addr) (h : HapBlePduRequestHeader) :
  heap w !! l = Some h ->
  request_transaction_id l w = (Ok (settled_tid h w), settled l h w).
Proof.
  intros Hl.
  unfold request_transaction_id, bind, deref, ret, settled, settled_tid,
    getrandbits8, update.
  rewrite Hl. destruct (_transaction_id h); [reflexivity|].
  unfold set_heap, set_draws; cbn [heap entropy draws written incoming attributes].
  rewrite Hl. reflexivity.
Qed.

Lemma request_header_data_run (w : world) (l : addr) (h : HapBlePduRequestHeader) :
  heap w !! l = Some h ->
  request_header_data l w = (header_wire h (settled_tid h w), settled l h w).
Proof.
  intros Hl. unfold request_header_data.
  unfold bind at 1. unfold deref at 1. rewrite Hl.
  destruct (continuation h) eqn:Hc.
  - rewrite (bind_run _ _ _ _ _ (request_transaction_id_run w l h Hl)).
    unfold header_wire, bind, lift, ret. rewrite Hc.
    destruct (pack_B (control_field h)); try reflexivity.
    destruct (pack_B (settled_tid h w)); reflexivity.
  - rewrite (bind_run _ _ _ _ _ (request_transaction_id_run w l h Hl)).
    unfold header_wire, bind, lift, ret. rewrite Hc.
    destruct (pack_B (control_field h)); try reflexivity.
    destruct (pack_B (op_code h)); try reflexivity.
    destruct (pack_B (settled_tid h w)); reflexivity.
Qed.

Lemma request_header_data_settled (w : world) (l : addr)
    (h : HapBlePduRequestHeader) (t : Z) :
  heap w !! l = Some h -> _transaction_id h = Some t ->
  request_header_data l w = (header_wire h t, w).
Proof.
  intros Hl Ht. rewrite (request_header_data_run w l h Hl).
  unfold settled_tid, settled. rewrite Ht. reflexivity.
Qed.

Lemma header_wire_with_transaction_id (h : HapBlePduRequestHeader) (t t' : Z) :
  header_wire (with_transaction_id t h) t' = header_wire h t'.
Proof. reflexivity. Qed.

(** A well-formed header serialises: 2 bytes in continuation form,
    3 bytes and the instance identifier otherwise, the control byte
    first. *)
Lemma header_wire_ok (h : HapBlePduRequestHeader) (t : Z) :
  0 <= op_code h <= 255 -> 0 <= t <= 255 ->
  exists c tb : byte,
    Z.testbit (byte_to_Z c) 7 = continuation h
    /\ byte_to_Z tb = t
    /\ if continuation h then header_wire h t = Ok [c; tb]
       else exists o : byte, header_wire h t = Ok ([c; o; tb] ++ cid_sid h).
Proof.
  intros Ho Ht.
  destruct (pack_B_control_field h) as (c & Hc & H7 & _).
  destruct (pack_B_in_range _ Ho) as (o & Hpo & _).
  destruct (pack_B_in_range _ Ht) as (tb & Hpt & Htb).
  exists c, tb. repeat split; [exact H7|exact Htb|].
  unfold header_wire. rewrite Hc, Hpo, Hpt.
  destruct (continuation h); eauto.
Qed.

Lemma header_wire_len (h : HapBlePduRequestHeader) (t : Z) (hd : bytes) :
  header_wire h t = Ok hd ->
  len hd = if continuation h then 2 else 3 + len (cid_sid h).
Proof.
  unfold header_wire.
  destruct (pack_B (control_field h)); try discriminate.
  destruct (continuation h).
  - destruct (pack_B t); try discriminate. intros [= <-]. reflexivity.
  - destruct (pack_B (op_code h)); try discriminate.
    destruct (pack_B t); try discriminate. intros [= <-].
    unfold len. cbn [length app]. lia.
Qed.

(** ** The fragment loops *)

Lemma fill_fragment_chunks (prepared : list bytes) (fragment_data : bytes) :
  fill_fragment fragment_data prepared
  = (fragment_data ++ concat (fill_chunks (len fragment_data) prepared).1,
     (fill_chunks (len fragment_data) prepared).2).
Proof.
  revert fragment_data. induction prepared as [|chunk rest IH]; intros fd; cbn.
  - rewrite app_nil_r. reflexivity.
  - destruct (len fd + len chunk <? max_len) eqn:E; cbn.
    + rewrite IH, len_app, <- app_assoc. reflexivity.
    + rewrite app_nil_r. reflexivity.
Qed.

Lemma fill_chunks_split (prepared : list bytes) (n : Z) :
  (fill_chunks n prepared).1 ++ (fill_chunks n prepared).2 = prepared.
Proof.
  revert n. induction prepared as [|chunk rest IH]; intros n; cbn; [reflexivity|].
  destruct (n + len chunk <? max_len); cbn; [|reflexivity].
  rewrite IH. reflexivity.
Qed.

(** The fragment never reaches [max_len] bytes of chunks. *)
Lemma fill_chunks_bound (prepared : list bytes) (n : Z) :
  n < max_len -> n + len (concat (fill_chunks n prepared).1) < max_len.
Proof.
  revert n. induction prepared as [|chunk rest IH]; intros n Hn; cbn.
  - unfold len; cbn; lia.
  - destruct (n + len chunk <? max_len) eqn:E; cbn.
    + apply Z.ltb_lt in E. specialize (IH _ E). rewrite len_app. lia.
    + unfold len; cbn; lia.
Qed.

(** A first chunk shorter than [max_len] is always taken. *)
Lemma fill_chunks_takes (chunk : bytes) (rest : list bytes) :
  len chunk < max_len ->
  exists more, (fill_chunks 0 (chunk :: rest)).1 = chunk :: more.
Proof.
  intros Hc. cbn [fill_chunks]. rewrite Z.add_0_l.
  apply Z.ltb_lt in Hc. rewrite Hc. cbn [fst]. eauto.
Qed.

(** A first chunk of [max_len] bytes or more is never taken. *)
Lemma fill_chunks_stuck (chunk : bytes) (rest : list bytes) :
  max_len <= len chunk ->
  fill_chunks 0 (chunk :: rest) = ([], chunk :: rest).
Proof.
  intros Hc. cbn [fill_chunks]. rewrite Z.add_0_l.
  apply Z.ltb_ge in Hc. rewrite Hc. reflexivity.
Qed.

Lemma are_fragments_Forall2 (hd : bytes) (gs : list (list bytes)) (fs : list bytes) :
  are_fragments hd hd gs fs -> Forall2 (is_fragment hd) gs fs.
Proof.
  destruct gs, fs; cbn; try tauto; [constructor|]. intros []. constructor; assumption.
Qed.

Lemma with_continuation_idem (h : HapBlePduRequestHeader) :
  with_continuation true (with_continuation true h) = with_continuation true h.
Proof. reflexivity. Qed.

Lemma fragment_loop_run (l : addr) (t : Z) (hd' : bytes) (fuel : nat) :
  forall (prepared : list bytes) (w : world) (h : HapBlePduRequestHeader) (hd : bytes),
    heap w !! l = Some h -> _transaction_id h = Some t ->
    header_wire h t = Ok hd ->
    header_wire (with_continuation true h) t = Ok hd' ->
    Forall (fun chunk => len chunk < max_len) prepared ->
    (length prepared <= fuel)%nat ->
    exists (gs : list (list bytes)) (fs : list bytes),
      fragment_loop fuel l prepared characteristic_write w
      = (Ok tt, after_fragments l h fs w)
      /\ concat gs = prepared
      /\ Forall (fun g => g <> [] /\ len (concat g) < max_len) gs
      /\ are_fragments hd hd' gs fs.
Proof.
  induction fuel as [|fuel IH]; intros prepared w h hd Hl Ht Hhd Hhd' Hsmall Hfuel.
  - destruct prepared; [|cbn in Hfuel; lia].
    exists [], []. cbn. unfold ret, after_fragments, set_written.
    rewrite app_nil_r. destruct w; repeat split; constructor.
  - destruct prepared as [|chunk rest].
    { exists [], []. cbn. unfold ret, after_fragments, set_written.
      rewrite app_nil_r. destruct w; repeat split; constructor. }
    cbn [fragment_loop]. rewrite fill_fragment_chunks. cbn [app].
    replace (len (@nil byte)) with 0 by reflexivity.
    pose proof (fill_chunks_split (chunk :: rest) 0) as Hsplit.
    pose proof (fill_chunks_bound (chunk :: rest) 0 ltac:(reflexivity)) as Hbound.
    apply Forall_cons in Hsmall as [Hchunk Hrest].
    destruct (fill_chunks_takes chunk rest Hchunk) as [more Hmore].
    destruct (fill_chunks 0 (chunk :: rest)) as [taken left] eqn:Hfill.
    cbn [fst snd] in *. subst taken.
    destruct (pack_H_in_range (len (concat (chunk :: more)))) as (lo & hi & Hn).
    { pose proof (len_nonneg (concat (chunk :: more))). unfold max_len in *. lia. }
    pose proof (request_header_data_settled w l h t Hl Ht) as Hdata.
    rewrite Hhd in Hdata. rewrite (bind_run _ _ _ _ _ Hdata).
    unfold lift at 1. unfold bind at 1. rewrite Hn.
    unfold bind at 1, characteristic_write at 1.
    unfold bind at 1, update at 1.
    set (w1 := set_heap _ _).
    assert (heap w1 !! l = Some (with_continuation true h)) as Hl1.
    { subst w1. unfold set_heap, set_written.
      cbn [heap entropy draws written incoming attributes].
      rewrite Hl. apply lookup_insert_eq. }
    assert (length left <= fuel)%nat as Hfuel'.
    { apply (f_equal (@length _)) in Hsplit. rewrite length_app in Hsplit.
      cbn in Hsplit, Hfuel. lia. }
    assert (Forall (fun c => len c < max_len) left) as Hleft.
    { assert (Forall (fun c => len c < max_len) (chunk :: rest)) as Hall
        by (constructor; assumption).
      rewrite <- Hsplit in Hall. apply Forall_app in Hall. tauto. }
    destruct (IH left w1 (with_continuation true h) hd' Hl1 Ht Hhd' Hhd' Hleft Hfuel')
      as (gs & fs & Hrun & Hcat & Hgs & Hfs).
    exists ((chunk :: more) :: gs), ((hd ++ [lo; hi] ++ concat (chunk :: more)) :: fs).
    split; [|split; [|split]].
    + rewrite Hrun. f_equal. subst w1.
      unfold after_fragments, set_written, set_heap.
      cbn [heap entropy draws written incoming attributes].
      rewrite Hl. rewrite <- app_assoc. cbn [app].
      destruct fs; cbn [heap entropy draws written incoming attributes];
        [reflexivity|].
      rewrite insert_insert_eq. reflexivity.
    + cbn [concat]. rewrite Hcat. exact Hsplit.
    + constructor; [|exact Hgs]. split; [discriminate|]. lia.
    + cbn. split; [exists [lo; hi]; split; [exact Hn|reflexivity]|].
      apply are_fragments_Forall2. exact Hfs.
Qed.

(** With a first chunk of [max_len] bytes or more the loop never ends:
    whatever the fuel, it is still running when the fuel is spent, and
    every turn wrote a fragment with no chunk in it. *)
Lemma fragment_loop_stuck (l : addr) (t : Z) (hd' : bytes) (chunk : bytes)
    (rest : list bytes) (fuel : nat) :
  forall (w : world) (h : HapBlePduRequestHeader) (hd : bytes),
    heap w !! l = Some h -> _transaction_id h = Some t ->
    header_wire h t = Ok hd ->
    header_wire (with_continuation true h) t = Ok hd' ->
    max_len <= len chunk ->
    exists fs : list bytes,
      fragment_loop fuel l (chunk :: rest) characteristic_write w
      = (OutOfFuel, after_fragments l h fs w)
      /\ length fs = fuel
      /\ are_fragments hd hd' (replicate fuel []) fs.
Proof.
  induction fuel as [|fuel IH]; intros w h hd Hl Ht Hhd Hhd' Hbig.
  - exists []. cbn. unfold out_of_fuel, after_fragments, set_written.
    rewrite app_nil_r. destruct w; repeat split.
  - cbn [fragment_loop]. rewrite fill_fragment_chunks. cbn [app].
    replace (len (@nil byte)) with 0 by reflexivity.
    rewrite (fill_chunks_stuck chunk rest Hbig). cbn [fst snd concat].
    pose proof (request_header_data_settled w l h t Hl Ht) as Hdata.
    rewrite Hhd in Hdata. rewrite (bind_run _ _ _ _ _ Hdata).
    unfold lift at 1. unfold bind at 1.
    change (pack_H (len (@nil byte))) with (@Ok bytes [x00; x00]).
    unfold bind at 1, characteristic_write at 1.
    unfold bind at 1, update at 1.
    set (w1 := set_heap _ _).
    assert (heap w1 !! l = Some (with_continuation true h)) as Hl1.
    { subst w1. unfold set_heap, set_written.
      cbn [heap entropy draws written incoming attributes].
      rewrite Hl. apply lookup_insert_eq. }
    destruct (IH w1 (with_continuation true h) hd' Hl1 Ht Hhd' Hhd' Hbig)
      as (fs & Hrun & Hlen & Hfs).
    exists ((hd ++ [x00; x00] ++ []) :: fs). split; [|split].
    + rewrite Hrun. f_equal. subst w1.
      unfold after_fragments, set_written, set_heap.
      cbn [heap entropy draws written incoming attributes].
      rewrite Hl. rewrite <- app_assoc. cbn [app].
      destruct fs; cbn [heap entropy draws written incoming attributes];
        [reflexivity|].
      rewrite insert_insert_eq. reflexivity.
    + cbn. rewrite Hlen. reflexivity.
    + cbn. split; [exists [x00; x00]; split; reflexivity|].
      apply are_fragments_Forall2. exact Hfs.
Qed.

(** ** [fragment_tlvs] and [_request] *)

Section Requests.
Context `{Imports}.

Lemma prepared_tlvs_nil_inv (TLVs : list (Z * bytes)) (chunks : list bytes) :
  prepared_tlvs TLVs = Ok chunks -> chunks <> [] -> TLVs <> [].
Proof. destruct TLVs; [intros [= <-]; congruence|discriminate]. Qed.

(** A request with no parameter: the header alone is written. *)
Lemma _request_empty (fuel : nat) (l : addr) (w : world)
    (h : HapBlePduRequestHeader) (hd : bytes) :
  heap w !! l = Some h ->
  header_wire h (settled_tid h w) = Ok hd ->
  _request fuel l [] w
  = (Ok tt, set_written (written w ++ [hd]) (settled l h w)).
Proof.
  intros Hl Hhd. unfold _request.
  pose proof (request_header_data_run w l h Hl) as Hdata. rewrite Hhd in Hdata.
  rewrite (bind_run _ _ _ _ _ Hdata). unfold characteristic_write.
  destruct (settled_frame l h w) as (-> & _). reflexivity.
Qed.

(** A request whose header, length field and parameters fit in
    [max_len] bytes: one write. *)
Lemma _request_fits (fuel : nat) (l : addr) (w : world)
    (h : HapBlePduRequestHeader) (TLVs : list (Z * bytes))
    (chunks : list bytes) (hd : bytes) :
  heap w !! l = Some h ->
  prepared_tlvs TLVs = Ok chunks -> TLVs <> [] ->
  header_wire h (settled_tid h w) = Ok hd ->
  len hd + 2 + len (concat chunks) <= max_len ->
  exists n : bytes,
    pack_H (len (concat chunks)) = Ok n
    /\ _request fuel l TLVs w
       = (Ok tt, set_written (written w ++ [hd ++ n ++ concat chunks]) (settled l h w)).
Proof.
  intros Hl Hprep Hne Hhd Hfit.
  destruct (pack_H_in_range (len (concat chunks))) as (lo & hi & Hn).
  { pose proof (len_nonneg (concat chunks)). pose proof (len_nonneg hd).
    unfold max_len in *. lia. }
  exists [lo; hi]. split; [exact Hn|].
  destruct TLVs as [|tlv TLVs]; [congruence|].
  unfold _request, fragment_tlvs. rewrite Hprep.
  unfold lift at 1. unfold bind at 1.
  pose proof (request_header_data_run w l h Hl) as Hdata. rewrite Hhd in Hdata.
  rewrite (bind_run _ _ _ _ _ Hdata).
  apply Z.leb_le in Hfit. rewrite Hfit.
  pose proof (settled_heap l h w Hl) as Hl0.
  pose proof (request_header_data_settled (settled l h w) l _ (settled_tid h w) Hl0 eq_refl)
    as Hdata0.
  rewrite header_wire_with_transaction_id, Hhd in Hdata0.
  rewrite (bind_run _ _ _ _ _ Hdata0).
  unfold lift at 1. unfold bind at 1. rewrite Hn.
  unfold characteristic_write.
  destruct (settled_frame l h w) as (-> & _). reflexivity.
Qed.

(** A request that does not fit: the fragment loop runs on the chunks. *)
Lemma _request_fragments (fuel : nat) (l : addr) (w : world)
    (h : HapBlePduRequestHeader) (TLVs : list (Z * bytes))
    (chunks : list bytes) (hd hd' : bytes) :
  heap w !! l = Some h ->
  prepared_tlvs TLVs = Ok chunks -> TLVs <> [] ->
  header_wire h (settled_tid h w) = Ok hd ->
  header_wire (with_continuation true h) (settled_tid h w) = Ok hd' ->
  max_len < len hd + 2 + len (concat chunks) ->
  _request fuel l TLVs w
  = fragment_loop fuel l chunks characteristic_write (settled l h w).
Proof.
  intros Hl Hprep Hne Hhd Hhd' Hbig.
  destruct TLVs as [|tlv TLVs]; [congruence|].
  unfold _request, fragment_tlvs. rewrite Hprep.
  unfold lift at 1. unfold bind at 1.
  pose proof (request_header_data_run w l h Hl) as Hdata. rewrite Hhd in Hdata.
  rewrite (bind_run _ _ _ _ _ Hdata).
  apply Z.leb_gt in Hbig. rewrite Hbig. reflexivity.
Qed.

Lemma wf_header_wire (h : HapBlePduRequestHeader) (w : world) :
  wf_header h ->
  exists (hd : bytes) (c tb : byte),
    header_wire h (settled_tid h w) = Ok hd
    /\ len hd = header_len h
    /\ header_wire (with_continuation true h) (settled_tid h w) = Ok [c; tb]
    /\ Z.testbit (byte_to_Z c) 7 = true
    /\ byte_to_Z tb = settled_tid h w.
Proof.
  intros Hwf. pose proof (settled_tid_range h w Hwf) as Ht. destruct Hwf as [Ho _].
  destruct (header_wire_ok h _ Ho Ht) as (c0 & tb0 & _ & _ & Hhd).
  destruct (header_wire_ok (with_continuation true h) _ Ho Ht)
    as (c & tb & H7 & Htb & Hhd').
  cbn in H7, Hhd'.
  assert (exists hd, header_wire h (settled_tid h w) = Ok hd) as [hd Hhd0].
  { destruct (continuation h); [eauto|]. destruct Hhd as [o Hhd]. eauto. }
  exists hd, c, tb. repeat split; try assumption.
  apply (header_wire_len _ _ _ Hhd0).
Qed.

(** If a header serialises, so does its continuation form. *)
Lemma wf_header_wire_any (h : HapBlePduRequestHeader) (w : world) (hd : bytes) :
  header_wire h (settled_tid h w) = Ok hd ->
  exists hd' : bytes,
    header_wire (with_continuation true h) (settled_tid h w) = Ok hd'.
Proof.
  intros Hhd.
  destruct (pack_B_control_field (with_continuation true h)) as (c & Hc & _).
  assert (exists tb, pack_B (settled_tid h w) = Ok tb) as [tb Htb].
  { unfold header_wire in Hhd.
    destruct (pack_B (control_field h)); try discriminate.
    destruct (continuation h).
    - destruct (pack_B (settled_tid h w)); try discriminate; eauto.
    - destruct (pack_B (op_code h)); try discriminate.
      destruct (pack_B (settled_tid h w)); try discriminate; eauto. }
  exists [c; tb]. unfold header_wire. rewrite Hc.
  cbn [continuation req_base with_continuation]. rewrite Htb. reflexivity.
Qed.

(** A request that does not fit, all of whose chunks are shorter than
    [max_len]: the loop ends, and writes the chunks in groups. *)
Lemma _request_oversized (fuel : nat) (l : addr) (w : world)
    (h : HapBlePduRequestHeader) (TLVs : list (Z * bytes))
    (chunks : list bytes) (hd hd' : bytes) :
  heap w !! l = Some h ->
  prepared_tlvs TLVs = Ok chunks -> TLVs <> [] ->
  header_wire h (settled_tid h w) = Ok hd ->
  header_wire (with_continuation true h) (settled_tid h w) = Ok hd' ->
  max_len < len hd + 2 + len (concat chunks) ->
  Forall (fun chunk => len chunk < max_len) chunks ->
  (length chunks <= fuel)%nat ->
  exists (gs : list (list bytes)) (fs : list bytes),
    _request fuel l TLVs w
    = (Ok tt, after_fragments l (with_transaction_id (settled_tid h w) h) fs
                (settled l h w))
    /\ concat gs = chunks
    /\ Forall (fun g => g <> [] /\ len (concat g) < max_len) gs
    /\ are_fragments hd hd' gs fs.
Proof.
  intros Hl Hprep Hne Hhd Hhd' Hbig Hsmall Hfuel.
  rewrite (_request_fragments fuel l w h TLVs chunks hd hd') by assumption.
  apply (fragment_loop_run l (settled_tid h w) hd' fuel chunks (settled l h w)
           (with_transaction_id (settled_tid h w) h) hd);
    try assumption.
  - apply settled_heap, Hl.
  - reflexivity.
Qed.

Lemma are_fragments_nonempty (hd hd' : bytes) (gs : list (list bytes)) (fs : list bytes) :
  are_fragments hd hd' gs fs -> gs <> [] ->
  exists g gs' f fs',
    gs = g :: gs' /\ fs = f :: fs'
    /\ is_fragment hd g f /\ Forall2 (is_fragment hd') gs' fs'.
Proof.
  destruct gs as [|g gs'], fs as [|f fs']; cbn; try tauto; try congruence.
  intros [] _. exists g, gs', f, fs'. repeat split; assumption.
Qed.

(** What a well-formed request with chunks shorter than [max_len]
    writes, whichever way it goes: at least one write, the first one
    starting with the header as it was, and a header that was in
    continuation form still is. *)
Lemma _request_first_write (fuel : nat) (l : addr) (w : world)
    (h : HapBlePduRequestHeader) (TLVs : list (Z * bytes))
    (chunks : list bytes) (hd : bytes) :
  heap w !! l = Some h -> wf_header h ->
  header_wire h (settled_tid h w) = Ok hd ->
  header_len h + 2 <= max_len ->
  prepared_tlvs TLVs = Ok chunks ->
  Forall (fun chunk => len chunk < max_len) chunks ->
  (length chunks <= fuel)%nat ->
  exists (w' : world) (rest : bytes) (more : list bytes) (h' : HapBlePduRequestHeader),
    _request fuel l TLVs w = (Ok tt, w')
    /\ written w' = written w ++ (hd ++ rest) :: more
    /\ heap w' !! l = Some h'
    /\ (continuation h = true -> continuation h' = true).
Proof.
  intros Hl Hwf Hhd Hcid Hprep Hsmall Hfuel.
  destruct (wf_header_wire h w Hwf) as (hd0 & c & tb & Hhd0 & Hlen & Hhd' & _).
  rewrite Hhd in Hhd0. injection Hhd0 as <-.
  destruct TLVs as [|tlv TLVs].
  { rewrite (_request_empty fuel l w h hd Hl Hhd).
    exists (set_written (written w ++ [hd]) (settled l h w)), [], [],
      (with_transaction_id (settled_tid h w) h).
    rewrite app_nil_r.
    split; [reflexivity|]. split; [reflexivity|].
    split; [apply (settled_heap l h w Hl)|]. intros Hc; exact Hc. }
  destruct (Z.le_gt_cases (len hd + 2 + len (concat chunks)) max_len) as [Hfit|Hbig].
  - destruct (_request_fits fuel l w h (tlv :: TLVs) chunks hd Hl Hprep
                ltac:(discriminate) Hhd Hfit) as (n & Hn & Hrun).
    rewrite Hrun.
    exists (set_written (written w ++ [hd ++ n ++ concat chunks]) (settled l h w)),
      (n ++ concat chunks), [], (with_transaction_id (settled_tid h w) h).
    split; [reflexivity|]. split; [reflexivity|].
    split; [apply (settled_heap l h w Hl)|]. intros Hc; exact Hc.
  - destruct (_request_oversized fuel l w h (tlv :: TLVs) chunks hd [c; tb] Hl Hprep
                ltac:(discriminate) Hhd Hhd' Hbig Hsmall Hfuel)
      as (gs & fs & Hrun & Hcat & Hgs & Hfs).
    assert (gs <> []) as Hgne.
    { intros ->. cbn in Hcat. subst chunks.
      change (len (concat [])) with 0 in Hbig. lia. }
    destruct (are_fragments_nonempty _ _ _ _ Hfs Hgne)
      as (g & gs' & f & fs' & -> & -> & (n & Hn & ->) & Hfs').
    rewrite Hrun. eexists _, (n ++ concat g), fs', _. split; [reflexivity|].
    unfold after_fragments, set_written, set_heap.
    cbn [heap entropy draws written incoming attributes].
    destruct (settled_frame l h w) as (-> & _).
    split; [reflexivity|]. split; [apply lookup_insert_eq|]. reflexivity.
Qed.

(** C9. A request that has to be fragmented leaves the header object it
    was given in continuation form: the object at the same address has
    its continuation flag set and nothing else changed, it serialises
    from then on as the 2-byte form (control byte with bit 7 set, then
    the transaction identifier), and a later request through the same
    object starts its first write with these two bytes and leaves the
    flag set. *)
Theorem fragmenter_leaves_continuation_header (fuel : nat) (l : addr) (w : world)
    (h : HapBlePduRequestHeader) (TLVs : list (Z * bytes)) (chunks : list bytes) :
  heap w !! l = Some h -> wf_header h ->
  prepared_tlvs TLVs = Ok chunks -> chunks <> [] ->
  Forall (fun chunk => len chunk < max_len) chunks ->
  (length chunks <= fuel)%nat ->
  max_len < header_len h + 2 + len (concat chunks) ->
  exists (w' : world) (c tb : byte),
    _request fuel l TLVs w = (Ok tt, w')
    /\ heap w' !! l
       = Some (with_continuation true (with_transaction_id (settled_tid h w) h))
    /\ Z.testbit (byte_to_Z c) 7 = true
    /\ byte_to_Z tb = settled_tid h w
    /\ request_header_data l w' = (Ok [c; tb], w')
    /\ (forall fuel',
           _request fuel' l [] w'
           = (Ok tt, set_written (written w' ++ [[c; tb]]) w'))
    /\ (forall fuel' TLVs' chunks',
           prepared_tlvs TLVs' = Ok chunks' ->
           Forall (fun chunk => len chunk < max_len) chunks' ->
           (length chunks' <= fuel')%nat ->
           exists (w'' : world) (rest : bytes) (more : list bytes)
                  (h'' : HapBlePduRequestHeader),
             _request fuel' l TLVs' w' = (Ok tt, w'')
             /\ written w'' = written w' ++ ([c; tb] ++ rest) :: more
             /\ heap w'' !! l = Some h''
             /\ continuation h'' = true).
Proof.
  intros Hl Hwf Hprep Hne Hsmall Hfuel Hbig.
  destruct (wf_header_wire h w Hwf) as (hd & c & tb & Hhd & Hlen & Hhd' & H7 & Htb).
  rewrite <- Hlen in Hbig.
  destruct (_request_oversized fuel l w h TLVs chunks hd [c; tb] Hl Hprep
              (prepared_tlvs_nil_inv _ _ Hprep Hne) Hhd Hhd' Hbig Hsmall Hfuel)
    as (gs & fs & Hrun & Hcat & Hgs & Hfs).
  assert (gs <> []) as Hgne by (intros ->; cbn in Hcat; congruence).
  destruct (are_fragments_nonempty _ _ _ _ Hfs Hgne)
    as (g & gs' & f & fs' & -> & -> & _ & _).
  set (h1 := with_continuation true (with_transaction_id (settled_tid h w) h)).
  set (w' := after_fragments l (with_transaction_id (settled_tid h w) h) (f :: fs')
               (settled l h w)) in *.
  assert (heap w' !! l = Some h1) as Hl'.
  { subst w'. unfold after_fragments, set_written, set_heap.
    cbn [heap entropy draws written incoming attributes]. apply lookup_insert_eq. }
  assert (header_wire h1 (settled_tid h1 w') = Ok [c; tb]) as Hwire1 by exact Hhd'.
  assert (wf_header h1) as Hwf1.
  { pose proof (settled_tid_range h w Hwf) as Hr.
    destruct Hwf as [Ho _]. split; [exact Ho|].
    intros t [= <-]. exact Hr. }
  exists w', c, tb. split; [exact Hrun|]. split; [exact Hl'|].
  split; [exact H7|]. split; [exact Htb|]. split; [|split].
  - rewrite (request_header_data_settled w' l h1 (settled_tid h w) Hl' eq_refl).
    f_equal. exact Hhd'.
  - intros fuel'. apply (_request_empty fuel' l w' h1 [c; tb] Hl' Hwire1).
  - intros fuel' TLVs' chunks' Hprep' Hsmall' Hfuel'.
    destruct (_request_first_write fuel' l w' h1 TLVs' chunks' [c; tb] Hl' Hwf1 Hwire1)
      as (w'' & rest & more & h'' & Hrun' & Hw & Hh & Hc); try assumption.
    { unfold header_len, max_len. cbn. lia. }
    exists w'', rest, more, h''. repeat split; try assumption. apply Hc. reflexivity.
Qed.

(** The first turn of the loop reads the header's bytes, which chooses
    the transaction identifier if need be: the loop runs the same from
    the world where it is chosen. *)
Lemma fragment_loop_settle (fuel : nat) (l : addr) (chunk : bytes) (rest : list bytes)
    (yield_ : bytes -> M unit) (w : world) (h : HapBlePduRequestHeader) :
  heap w !! l = Some h ->
  fragment_loop (S fuel) l (chunk :: rest) yield_ w
  = fragment_loop (S fuel) l (chunk :: rest) yield_ (settled l h w).
Proof.
  intros Hl. cbn [fragment_loop].
  destruct (fill_fragment [] (chunk :: rest)) as [fragment_data left].
  pose proof (request_header_data_run w l h Hl) as Hrun.
  pose proof (request_header_data_settled (settled l h w) l _ (settled_tid h w)
                (settled_heap l h w Hl) eq_refl) as Hrun'.
  rewrite header_wire_with_transaction_id in Hrun'.
  unfold bind at 1. rewrite Hrun.
  symmetry. unfold bind at 1. rewrite Hrun'. reflexivity.
Qed.

(** C6, as the code has it. Given chunks that are each shorter than 512
    bytes (the TLV codec makes them of 257 bytes at most), the fragment
    loop ends without an exception, and what it wrote is a list of
    fragments, each made of a header, the 2-byte length and a group of
    whole chunks that is never empty; the groups put end to end are the
    chunks given, so no chunk is dropped or cut. The first fragment is
    under the bytes of the header as it is, the following ones under
    those of its continuation form. *)
Theorem fragment_loop_places_whole_chunks (fuel : nat) (l : addr) (w : world)
    (h : HapBlePduRequestHeader) (chunks : list bytes) :
  heap w !! l = Some h -> wf_header h ->
  Forall (fun chunk => len chunk < max_len) chunks ->
  (length chunks <= fuel)%nat ->
  exists (w' : world) (hd hd' : bytes) (gs : list (list bytes)) (fs : list bytes),
    fragment_loop fuel l chunks characteristic_write w = (Ok tt, w')
    /\ written w' = written w ++ fs
    /\ concat gs = chunks
    /\ Forall (fun g => g <> []) gs
    /\ header_wire h (settled_tid h w) = Ok hd
    /\ header_wire (with_continuation true h) (settled_tid h w) = Ok hd'
    /\ are_fragments hd hd' gs fs.
Proof.
  intros Hl Hwf Hsmall Hfuel.
  destruct (wf_header_wire h w Hwf) as (hd & c & tb & Hhd & _ & Hhd' & _).
  destruct chunks as [|chunk rest].
  { exists w, hd, [c; tb], [], [].
    destruct fuel; cbn; rewrite app_nil_r; repeat split; try assumption; constructor. }
  destruct fuel as [|fuel]; [cbn in Hfuel; lia|].
  rewrite (fragment_loop_settle fuel l chunk rest _ w h Hl).
  destruct (fragment_loop_run l (settled_tid h w) [c; tb] (S fuel) (chunk :: rest)
              (settled l h w) (with_transaction_id (settled_tid h w) h) hd
              (settled_heap l h w Hl) eq_refl Hhd Hhd' Hsmall Hfuel)
    as (gs & fs & Hrun & Hcat & Hgs & Hfs).
  eexists _, hd, [c; tb], gs, fs. split; [exact Hrun|].
  split; [|split; [exact Hcat|split; [|split; [exact Hhd|split; [exact Hhd'|exact Hfs]]]]].
  - unfold after_fragments, set_written.
    cbn [heap entropy draws written incoming attributes].
    destruct (settled_frame l h w) as (-> & _). reflexivity.
  - eapply Forall_impl; [exact Hgs|]. intros g [Hg _]. exact Hg.
Qed.

(** A chunk of 512 bytes or more at the head of the list is never
    placed: whatever the number of turns allowed, the loop is still
    running at the end of them, and each turn wrote one more fragment. *)
Lemma fragment_loop_never_ends (l : addr) (w : world) (h : HapBlePduRequestHeader)
    (chunk : bytes) (rest : list bytes) (fuel : nat) :
  heap w !! l = Some h -> wf_header h ->
  max_len <= len chunk ->
  (fragment_loop fuel l (chunk :: rest) characteristic_write w).1 = OutOfFuel
  /\ length (written (fragment_loop fuel l (chunk :: rest) characteristic_write w).2)
     = (length (written w) + fuel)%nat.
Proof.
  intros Hl Hwf Hbig.
  destruct fuel as [|fuel]; [cbn; split; [reflexivity|lia]|].
  destruct (wf_header_wire h w Hwf) as (hd & c & tb & Hhd & _ & Hhd' & _).
  rewrite (fragment_loop_settle fuel l chunk rest _ w h Hl).
  destruct (fragment_loop_stuck l (settled_tid h w) [c; tb] chunk rest (S fuel)
              (settled l h w) (with_transaction_id (settled_tid h w) h) hd
              (settled_heap l h w Hl) eq_refl Hhd Hhd' Hbig)
    as (fs & Hrun & Hlen & _).
  rewrite Hrun. split; [reflexivity|].
  unfold after_fragments, set_written.
  cbn [fst snd heap entropy draws written incoming attributes].
  destruct (settled_frame l h w) as (-> & _).
  rewrite length_app, Hlen. reflexivity.
Qed.

(** Chunks that together are shorter than [max_len] all go in one
    fragment. *)
Lemma fill_chunks_all (prepared : list bytes) (n : Z) :
  n + len (concat prepared) < max_len ->
  fill_chunks n prepared = (prepared, []).
Proof.
  revert n. induction prepared as [|chunk rest IH]; intros n Hn; [reflexivity|].
  cbn [fill_chunks]. cbn [concat] in Hn. rewrite len_app in Hn.
  pose proof (len_nonneg (concat rest)).
  replace (n + len chunk <? max_len) with true by (symmetry; apply Z.ltb_lt; lia).
  rewrite IH by lia. reflexivity.
Qed.

Lemma fragment_loop_single (fuel : nat) (l : addr) (w : world)
    (h : HapBlePduRequestHeader) (t : Z) (hd : bytes) (chunks : list bytes) :
  heap w !! l = Some h -> _transaction_id h = Some t ->
  header_wire h t = Ok hd ->
  chunks <> [] -> len (concat chunks) < max_len ->
  exists n : bytes,
    pack_H (len (concat chunks)) = Ok n
    /\ fragment_loop (S fuel) l chunks characteristic_write w
       = (Ok tt, after_fragments l h [hd ++ n ++ concat chunks] w).
Proof.
  intros Hl Ht Hhd Hne Hsmall.
  destruct (pack_H_in_range (len (concat chunks))) as (lo & hi & Hn).
  { pose proof (len_nonneg (concat chunks)). unfold max_len in *. lia. }
  exists [lo; hi]. split; [exact Hn|].
  destruct chunks as [|chunk rest]; [congruence|].
  cbn [fragment_loop]. rewrite fill_fragment_chunks.
  replace (len (@nil byte)) with 0 by reflexivity.
  rewrite (fill_chunks_all (chunk :: rest) 0) by lia. cbn [fst snd app].
  pose proof (request_header_data_settled w l h t Hl Ht) as Hdata.
  rewrite Hhd in Hdata. rewrite (bind_run _ _ _ _ _ Hdata).
  unfold lift at 1. unfold bind at 1. rewrite Hn.
  unfold bind at 1, characteristic_write at 1.
  unfold bind at 1, update at 1.
  destruct fuel; cbn [fragment_loop]; unfold ret, after_fragments, set_written, set_heap;
    cbn [heap entropy draws written incoming attributes]; rewrite Hl; reflexivity.
Qed.

Lemma fragmented_inv (l : addr) (w : world) (h : HapBlePduRequestHeader)
    (TLVs : list (Z * bytes)) (b : bool) :
  heap w !! l = Some h ->
  (fragmented l TLVs w).1 = Ok b ->
  exists (chunks : list bytes) (hd : bytes),
    prepared_tlvs TLVs = Ok chunks
    /\ header_wire h (settled_tid h w) = Ok hd
    /\ b = (max_len <? len hd + len (concat chunks)).
Proof.
  intros Hl. unfold fragmented, raw_data.
  destruct (prepared_tlvs TLVs) as [chunks| |] eqn:Hprep;
    unfold lift at 1; unfold bind at 1 2; try discriminate.
  unfold bind at 1. rewrite (request_header_data_run w l h Hl).
  destruct (header_wire h (settled_tid h w)) as [hd| |] eqn:Hhd; try discriminate.
  cbn. intros [= <-]. exists chunks, hd. rewrite len_app. auto.
Qed.

(** C4, as the code has it. A request PDU that is not oversized (the
    header and the parameter bytes together are of 512 bytes at most) is
    written as one transport write. With an empty parameter list, as
    [read] passes, the write is the header alone, without length field;
    with parameters it is the header, the 2-byte little-endian length of
    the parameter bytes, and the parameter bytes. The header and the
    length field alone are taken to fit in 512 bytes, as they do with
    the 2-byte instance identifier of the protocol. *)
Theorem unfragmented_request_is_one_write (fuel : nat) (l : addr) (w : world)
    (h : HapBlePduRequestHeader) (TLVs : list (Z * bytes)) :
  heap w !! l = Some h ->
  header_len h + 2 <= max_len ->
  (fragmented l TLVs w).1 = Ok false ->
  exists (w' : world) (hd n : bytes) (chunks : list bytes),
    (request_header_data l w).1 = Ok hd
    /\ prepared_tlvs TLVs = Ok chunks
    /\ pack_H (len (concat chunks)) = Ok n
    /\ _request (S fuel) l TLVs w = (Ok tt, w')
    /\ written w'
       = written w ++ [match TLVs with
                       | [] => hd
                       | _ :: _ => hd ++ n ++ concat chunks
                       end].
Proof.
  intros Hl Hhlen Hfrag.
  destruct (fragmented_inv l w h TLVs false Hl Hfrag) as (chunks & hd & Hprep & Hhd & Hle).
  symmetry in Hle. apply Z.ltb_ge in Hle.
  pose proof (header_wire_len _ _ _ Hhd) as Hlen. fold (header_len h) in Hlen.
  pose proof (len_nonneg (concat chunks)) as Hpos.
  destruct (pack_H_in_range (len (concat chunks))) as (lo & hi & Hn).
  { unfold max_len in *. unfold header_len in *. pose proof (len_nonneg (cid_sid h)).
    destruct (continuation h); lia. }
  assert ((request_header_data l w).1 = Ok hd) as Hdata
    by (rewrite (request_header_data_run w l h Hl); exact Hhd).
  destruct TLVs as [|tlv TLVs].
  { exists (set_written (written w ++ [hd]) (settled l h w)), hd, [lo; hi], chunks.
    rewrite (_request_empty (S fuel) l w h hd Hl Hhd). repeat split; assumption. }
  destruct (Z.le_gt_cases (len hd + 2 + len (concat chunks)) max_len) as [Hfit|Hbig].
  - destruct (_request_fits (S fuel) l w h (tlv :: TLVs) chunks hd Hl Hprep
                ltac:(discriminate) Hhd Hfit) as (n & Hn' & Hrun).
    rewrite Hn in Hn'. injection Hn' as <-.
    eexists _, hd, [lo; hi], chunks. rewrite Hrun. repeat split; assumption.
  - destruct (wf_header_wire_any h w hd Hhd) as (hd' & Hhd').
    rewrite (_request_fragments (S fuel) l w h (tlv :: TLVs) chunks hd hd' Hl Hprep
               ltac:(discriminate) Hhd Hhd' Hbig).
    destruct (fragment_loop_single fuel l (settled l h w)
                (with_transaction_id (settled_tid h w) h) (settled_tid h w) hd chunks
                (settled_heap l h w Hl) eq_refl Hhd) as (n & Hn' & Hrun).
    { intros ->. change (len (concat [])) with 0 in Hbig. lia. }
    { unfold max_len in *. unfold header_len in *. pose proof (len_nonneg (cid_sid h)).
      destruct (continuation h); lia. }
    rewrite Hn in Hn'. injection Hn' as <-.
    eexists _, hd, [lo; hi], chunks. rewrite Hrun.
    split; [assumption|]. split; [assumption|]. split; [assumption|].
    split; [reflexivity|].
    unfold after_fragments, set_written.
    cbn [heap entropy draws written incoming attributes].
    destruct (settled_frame l h w) as (-> & _). reflexivity.
Qed.

(** What holds of the fragmentation of C1 on the code: a parameter list
    whose chunks put together exceed 512 bytes, sent under a header that
    is not a continuation header, leaves as a first fragment under the
    header as it is (bit 7 of the control byte clear) and following
    fragments under the 2-byte continuation header (bit 7 set); the
    fragments carry whole chunks, at least one each, in order and all of
    them. The chunks of a fragment are of 511 bytes at most, so a
    fragment is of at most the header, the length field and 511 bytes:
    the bound of 512 bytes on the fragment itself is not kept. *)
Lemma fragmentation_as_coded (fuel : nat) (l : addr) (w : world)
    (h : HapBlePduRequestHeader) (TLVs : list (Z * bytes)) (chunks : list bytes) :
  heap w !! l = Some h -> wf_header h -> continuation h = false ->
  prepared_tlvs TLVs = Ok chunks ->
  Forall (fun chunk => len chunk < max_len) chunks ->
  (length chunks <= fuel)%nat ->
  max_len < len (concat chunks) ->
  exists (w' : world) (hd : bytes) (c0 c tb : byte) (rest : bytes)
         (gs : list (list bytes)) (f : bytes) (fs : list bytes),
    _request fuel l TLVs w = (Ok tt, w')
    /\ written w' = written w ++ f :: fs
    /\ header_wire h (settled_tid h w) = Ok hd
    /\ hd = c0 :: rest /\ Z.testbit (byte_to_Z c0) 7 = false
    /\ Z.testbit (byte_to_Z c) 7 = true
    /\ are_fragments hd [c; tb] gs (f :: fs)
    /\ concat gs = chunks
    /\ Forall (fun g => g <> [] /\ len (concat g) < max_len) gs
    /\ Forall (fun x => len x <= len hd + 2 + 511) (f :: fs).
Proof.
  intros Hl Hwf Hcont Hprep Hsmall Hfuel Hbig.
  destruct (wf_header_wire h w Hwf) as (hd & c & tb & Hhd & Hlen & Hhd' & H7 & Htb).
  assert (exists c0 rest, hd = c0 :: rest /\ Z.testbit (byte_to_Z c0) 7 = false)
    as (c0 & rest & Hhd0 & H70).
  { pose proof (settled_tid_range h w Hwf) as Ht. destruct Hwf as [Ho _].
    destruct (header_wire_ok h _ Ho Ht) as (c0 & tb0 & Hc0 & _ & Hw0).
    rewrite Hcont in Hw0, Hc0. destruct Hw0 as [o Hw0].
    rewrite Hhd in Hw0. injection Hw0 as ->. eauto. }
  assert (chunks <> []) as Hne.
  { intros ->. change (len (concat [])) with 0 in Hbig. unfold max_len in Hbig. lia. }
  assert (max_len < len hd + 2 + len (concat chunks)) as Hbig'
    by (pose proof (len_nonneg hd); lia).
  destruct (_request_oversized fuel l w h TLVs chunks hd [c; tb] Hl Hprep
              (prepared_tlvs_nil_inv _ _ Hprep Hne) Hhd Hhd' Hbig' Hsmall Hfuel)
    as (gs & fs & Hrun & Hcat & Hgs & Hfs).
  assert (gs <> []) as Hgne by (intros ->; cbn in Hcat; congruence).
  destruct (are_fragments_nonempty _ _ _ _ Hfs Hgne)
    as (g & gs' & f & fs' & -> & -> & Hf & Hfs').
  eexists _, hd, c0, c, tb, rest, (g :: gs'), f, fs'.
  split; [exact Hrun|]. split.
  { unfold after_fragments, set_written.
    cbn [heap entropy draws written incoming attributes].
    destruct (settled_frame l h w) as (-> & _). reflexivity. }
  do 7 (split; [assumption|]).
  apply Forall_cons in Hgs as [[_ Hg] Hgs'].
  constructor.
  - destruct Hf as (n & Hn & ->). rewrite !len_app, (pack_H_length _ _ Hn).
    unfold max_len in Hg. lia.
  - assert (2 <= len hd) as Hhd2.
    { rewrite Hlen. unfold header_len. rewrite Hcont.
      pose proof (len_nonneg (cid_sid h)). lia. }
    clear -Hfs' Hgs' Hhd2. induction Hfs' as [|g' f' gs'' fs'' Hf' _ IH].
    + constructor.
    + apply Forall_cons in Hgs' as [[_ Hg'] Hgs'']. constructor; [|exact (IH Hgs'')].
      destruct Hf' as (n & Hn & ->). rewrite !len_app, (pack_H_length _ _ Hn).
      change (len [c; tb]) with 2. unfold max_len in Hg'. lia.
Qed.

End Requests.

(** ** The fragmenter on sample requests *)

Lemma big_TLVs_prepared : @prepared_tlvs spec_imports big_TLVs = Ok big_chunks.
Proof. vm_compute. reflexivity. Qed.

Lemma big_chunks_small : Forall (fun chunk => len chunk < max_len) big_chunks.
Proof. repeat constructor. Qed.

Lemma sample_header_wf : wf_header sample_header.
Proof. split; [cbn; lia|]. intros t. discriminate. Qed.

(** C1, where the code departs from it. The three parameters of
    [big_TLVs] encode to 764 bytes, more than 512, so the request is
    fragmented; the fragmenter packs the first two chunks (507 bytes)
    under the 5-byte header and the 2-byte length, and the first
    fragment written is of 514 bytes: the loop counts the chunks alone
    against the 512 bytes, not the header and the length field. *)
Theorem first_fragment_exceeds_max_len :
  let r := @_request spec_imports 3 0%nat big_TLVs (sample_world []) in
  (@fragmented spec_imports 0%nat big_TLVs (sample_world [])).1 = Ok true
  /\ r.1 = Ok tt
  /\ map len (written r.2) = [514; 261]
  /\ (514 <=? max_len) = false.
Proof. vm_compute. repeat split. Qed.

(** C4 fails for an empty parameter list: the request of a [read] is
    not oversized, and its one write is the 5-byte header alone, not the
    header followed by a 2-byte length of zero and no parameter byte. *)
Lemma read_request_writes_header_only :
  let w := sample_world [] in
  let hd := [x00; x01; x2a; x05; x00] in
  (@fragmented spec_imports 0%nat [] w).1 = Ok false
  /\ (request_header_data 0%nat w).1 = Ok hd
  /\ pack_H (len (@concat byte [])) = Ok [x00; x00]
  /\ (@_request spec_imports 1 0%nat [] w).1 = Ok tt
  /\ written (@_request spec_imports 1 0%nat [] w).2 = [hd]
  /\ written (@_request spec_imports 1 0%nat [] w).2 <> [hd ++ [x00; x00] ++ concat []].
Proof. vm_compute. repeat split. discriminate. Qed.

Lemma unfragmented_request_is_one_write_witness :
  exists w' : world,
    @_request spec_imports 1 0%nat [(1, [x07])] (sample_world []) = (Ok tt, w')
    /\ written w' = [[x00; x01; x2a; x05; x00; x03; x00; x01; x01; x07]].
Proof.
  destruct (@unfragmented_request_is_one_write spec_imports 0 0%nat (sample_world [])
              sample_header [(1, [x07])])
    as (w' & hd & n & chunks & Hd & Hp & Hn & Hrun & Hw).
  - reflexivity.
  - vm_compute. discriminate.
  - vm_compute. reflexivity.
  - exists w'. split; [exact Hrun|].
    vm_compute in Hd. injection Hd as <-.
    vm_compute in Hp. injection Hp as <-.
    vm_compute in Hn. injection Hn as <-.
    exact Hw.
Defined.

(** C6 fails on a chunk of 512 bytes: no exception is raised; each turn
    of the loop writes a fragment that holds no chunk (the header and a
    length of zero), and the loop is still running whatever the number
    of turns it is given. *)
Lemma oversized_chunk_is_never_placed :
  let w := sample_world [] in
  let r := fragment_loop 4 0%nat [replicate 512 x00] characteristic_write w in
  r.1 = OutOfFuel
  /\ written r.2
     = [[x00; x01; x2a; x05; x00; x00; x00];
        [x80; x2a; x00; x00]; [x80; x2a; x00; x00]; [x80; x2a; x00; x00]]
  /\ (forall fuel : nat,
         (fragment_loop fuel 0%nat [replicate 512 x00] characteristic_write w).1
         = OutOfFuel).
Proof.
  split; [vm_compute; reflexivity|]. split; [vm_compute; reflexivity|].
  intros fuel.
  apply (fragment_loop_never_ends 0%nat (sample_world []) sample_header
           (replicate 512 x00) [] fuel eq_refl sample_header_wf).
  vm_compute. discriminate.
Qed.

Lemma fragment_loop_places_whole_chunks_witness :
  exists (w' : world) (hd hd' : bytes) (gs : list (list bytes)) (fs : list bytes),
    fragment_loop 3 0%nat big_chunks characteristic_write (sample_world []) = (Ok tt, w')
    /\ written w' = written (sample_world []) ++ fs
    /\ concat gs = big_chunks
    /\ Forall (fun g => g <> []) gs
    /\ header_wire sample_header 42 = Ok hd
    /\ header_wire (with_continuation true sample_header) 42 = Ok hd'
    /\ are_fragments hd hd' gs fs.
Proof.
  apply (fragment_loop_places_whole_chunks 3 0%nat (sample_world []) sample_header
           big_chunks eq_refl sample_header_wf big_chunks_small).
  vm_compute. lia.
Defined.

Lemma fragmenter_leaves_continuation_header_witness :
  exists (w' : world) (c tb : byte),
    @_request spec_imports 3 0%nat big_TLVs (sample_world []) = (Ok tt, w')
    /\ heap w' !! 0%nat
       = Some (mkRequestHeader (mkHeader true false) 1 (Some 42) [x05; x00])
    /\ Z.testbit (byte_to_Z c) 7 = true
    /\ request_header_data 0%nat w' = (Ok [c; tb], w').
Proof.
  destruct (@fragmenter_leaves_continuation_header spec_imports 3 0%nat (sample_world [])
              sample_header big_TLVs big_chunks eq_refl sample_header_wf
              big_TLVs_prepared)
    as (w' & c & tb & Hrun & Hheap & H7 & _ & Hdata & _).
  - discriminate.
  - exact big_chunks_small.
  - vm_compute. lia.
  - vm_compute. reflexivity.
  - exists w', c, tb. repeat split; assumption.
Defined.

(** ** Validation of a response *)

Section Validation.
Context `{Imports}.

Lemma from_data_decoded (data : bytes) :
  (3 <= length data)%nat ->
  from_data data = Raise MalformedHeader
  \/ exists rh : HapBlePduResponseHeader, from_data data = Ok rh.
Proof.
  intros Hl. destruct data as [|b [|t [|s rest]]]; try (cbn in Hl; lia).
  rewrite from_data_control_byte. destruct (reserved_bit_set b); eauto.
Qed.

Lemma _check_read_response_run (l : addr) (w : world) (h : HapBlePduRequestHeader)
    (data : bytes) (rh : HapBlePduResponseHeader) :
  heap w !! l = Some h -> from_data data = Ok rh ->
  (_check_read_response l data w).1 = checked rh (settled_tid h w) data.
Proof.
  intros Hl Hrh. unfold _check_read_response, checked.
  rewrite Hrh. unfold lift at 1. unfold bind at 1.
  destruct (response rh); cbn [negb]; [|reflexivity].
  rewrite (bind_run _ _ _ _ _ (request_transaction_id_run w l h Hl)).
  destruct (negb (transaction_id rh =? settled_tid h w)); [reflexivity|].
  destruct (negb (status_code rh =? HapBleStatusCodes_Success)); [reflexivity|].
  destruct (3 <? len data); [|reflexivity].
  unfold bind, lift.
  destruct (unpack_H (take 2 (drop 3 data))) as [n| |]; try reflexivity.
  destruct (negb (len (drop 5 data) =? n)); reflexivity.
Qed.

Lemma _check_read_response_undecoded (l : addr) (w : world) (data : bytes) (e : error) :
  from_data data = Raise e -> _check_read_response l data w = (Raise e, w).
Proof. intros He. unfold _check_read_response. rewrite He. reflexivity. Qed.

(** What [write] does with an exception of the validation: the request
    went out, the response was read, the exception is the result. *)
Lemma write_check_raises (fuel : nat) (l : addr) (TLVs : list (Z * bytes))
    (w w1 : world) (data : bytes) (more : list bytes) (e : error) :
  _request fuel l TLVs w = (Ok tt, w1) ->
  incoming w1 = data :: more ->
  (_check_read_response l data (set_incoming more w1)).1 = Raise e ->
  (write fuel l TLVs w).1 = Raise e.
Proof.
  intros Hreq Hin Hcheck. unfold write.
  rewrite (bind_run _ _ _ _ _ Hreq).
  unfold bind at 1. unfold _read at 1. rewrite Hin.
  unfold bind at 1.
  destruct (_check_read_response l data (set_incoming more w1)) as [o w2].
  cbn in Hcheck. subst o. reflexivity.
Qed.

(** C2. [write] validates the response it read in a fixed order, the
    first failing check giving the error: the response flag of the
    header (InvalidResponse), then the transaction identifier against
    the request's (TransactionMismatch), then the status code against
    Success (ProtocolStatusError with the code), then the declared body
    length against the bytes that follow it (LengthMismatch). So a wrong
    transaction identifier gives TransactionMismatch whatever the status
    code, and a status code other than Success under the right
    identifier gives ProtocolStatusError whatever the length. *)
Theorem validation_order (fuel : nat) (l : addr) (TLVs : list (Z * bytes))
    (w w1 : world) (h1 : HapBlePduRequestHeader) (data : bytes) (more : list bytes)
    (rh : HapBlePduResponseHeader) :
  _request fuel l TLVs w = (Ok tt, w1) ->
  heap w1 !! l = Some h1 ->
  incoming w1 = data :: more ->
  from_data data = Ok rh ->
  let tid := settled_tid h1 w1 in
  let result := (write fuel l TLVs w).1 in
  (response rh = false -> result = Raise InvalidResponse)
  /\ (response rh = true -> transaction_id rh <> tid ->
      result = Raise TransactionMismatch)
  /\ (response rh = true -> transaction_id rh = tid ->
      status_code rh <> HapBleStatusCodes_Success ->
      result = Raise (ProtocolStatusError (status_code rh)))
  /\ (response rh = true -> transaction_id rh = tid ->
      status_code rh = HapBleStatusCodes_Success ->
      forall body_length : Z,
        unpack_H (take 2 (drop 3 data)) = Ok body_length ->
        len (drop 5 data) <> body_length ->
        result = Raise LengthMismatch).
Proof.
  intros Hreq Hl Hin Hrh tid result.
  assert (heap (set_incoming more w1) !! l = Some h1) as Hl' by exact Hl.
  pose proof (_check_read_response_run l (set_incoming more w1) h1 data rh Hl' Hrh)
    as Hrun.
  change (settled_tid h1 (set_incoming more w1)) with tid in Hrun.
  unfold checked in Hrun.
  repeat split.
  - intros Hr. apply (write_check_raises fuel l TLVs w w1 data more _ Hreq Hin).
    rewrite Hrun, Hr. reflexivity.
  - intros Hr Ht. apply (write_check_raises fuel l TLVs w w1 data more _ Hreq Hin).
    rewrite Hrun, Hr. apply Z.eqb_neq in Ht. rewrite Ht. reflexivity.
  - intros Hr Ht Hs. apply (write_check_raises fuel l TLVs w w1 data more _ Hreq Hin).
    rewrite Hrun, Hr. apply Z.eqb_eq in Ht. apply Z.eqb_neq in Hs.
    rewrite Ht, Hs. reflexivity.
  - intros Hr Ht Hs n Hn Hlen.
    apply (write_check_raises fuel l TLVs w w1 data more _ Hreq Hin).
    rewrite Hrun, Hr. apply Z.eqb_eq in Ht. apply Z.eqb_eq in Hs.
    rewrite Ht, Hs, Hn. cbn [negb].
    assert ((3 <? len data) = true) as ->.
    { apply Z.ltb_lt. unfold len.
      destruct data as [|? [|? [|? [|? ?]]]]; try discriminate. cbn. lia. }
    apply Z.eqb_neq in Hlen. rewrite Hlen. reflexivity.
Qed.

(** C10. The validation answers within the protocol's own errors only
    for responses of exactly 3 bytes or of 5 bytes and more. On fewer
    than 3 bytes the decoding of the header fails in [unpack]
    ([struct.error]), not with MalformedHeader or InvalidResponse. On
    exactly 4 bytes the result is never LengthMismatch: a response that
    passes the checks of the flag, the identifier and the status fails
    in [unpack] of the one-byte length field. *)
Theorem validation_total_on_3_or_5_bytes (l : addr) (w : world)
    (h : HapBlePduRequestHeader) (data : bytes) :
  heap w !! l = Some h ->
  let result := (_check_read_response l data w).1 in
  ((length data < 3)%nat ->
     from_data data = Raise StructError /\ result = Raise StructError)
  /\ (length data = 4%nat ->
        result <> Raise LengthMismatch
        /\ (forall rh : HapBlePduResponseHeader,
              from_data data = Ok rh -> response rh = true ->
              transaction_id rh = settled_tid h w ->
              status_code rh = HapBleStatusCodes_Success ->
              result = Raise StructError))
  /\ ((length data = 3%nat \/ (5 <= length data)%nat) ->
        result <> Raise StructError).
Proof.
  intros Hl result. subst result.
  split; [|split].
  - intros Hlen. split; [apply from_data_short; assumption|].
    rewrite (_check_read_response_undecoded l w data StructError); [reflexivity|].
    apply from_data_short. assumption.
  - intros Hlen.
    destruct data as [|b [|t [|s [|x [|y rest]]]]]; try discriminate.
    split.
    + destruct (from_data [b; t; s; x]) as [rh|e|] eqn:Hrh.
      * rewrite (_check_read_response_run l w h _ rh Hl Hrh). unfold checked.
        destruct (negb (response rh)); [discriminate|].
        destruct (negb (transaction_id rh =? settled_tid h w)); [discriminate|].
        destruct (negb (status_code rh =? HapBleStatusCodes_Success)); discriminate.
      * rewrite (_check_read_response_undecoded l w _ e Hrh). cbn.
        rewrite from_data_control_byte in Hrh.
        destruct (reserved_bit_set b); [|discriminate].
        injection Hrh as <-. discriminate.
      * rewrite from_data_control_byte in Hrh.
        destruct (reserved_bit_set b); discriminate.
    + intros rh Hrh Hr Ht Hs.
      rewrite (_check_read_response_run l w h _ rh Hl Hrh). unfold checked.
      rewrite Hr, Ht, Hs, !Z.eqb_refl. reflexivity.
  - intros Hlen.
    assert (3 <= length data)%nat as H3 by lia.
    destruct (from_data_decoded data H3) as [Hbad|[rh Hrh]].
    + rewrite (_check_read_response_undecoded l w data _ Hbad). discriminate.
    + rewrite (_check_read_response_run l w h _ rh Hl Hrh). unfold checked.
      destruct (negb (response rh)); [discriminate|].
      destruct (negb (transaction_id rh =? settled_tid h w)); [discriminate|].
      destruct (negb (status_code rh =? HapBleStatusCodes_Success)); [discriminate|].
      destruct data as [|b [|t [|s [|x [|y rest]]]]]; try (cbn in H3; lia).
      * discriminate.
      * cbn in Hlen. lia.
      * change (take 2 (drop 3 (b :: t :: s :: x :: y :: rest))) with [x; y].
        cbn [unpack_H].
        repeat match goal with
               | |- context [if ?c then _ else _] => destruct c
               end; discriminate.
Qed.

End Validation.

Lemma validation_order_witness :
  let bad_id := [x02; x2b; x06; x01; x00; x07] in
  let bad_status := [x02; x2a; x06; x09; x00; x07] in
  (@write spec_imports 1 0%nat [] (sample_world [bad_id])).1 = Raise TransactionMismatch
  /\ (@write spec_imports 1 0%nat [] (sample_world [bad_status])).1
     = Raise (ProtocolStatusError 6).
Proof.
  split.
  - refine (proj1 (proj2
      (@validation_order spec_imports 1 0%nat []
         (sample_world [[x02; x2b; x06; x01; x00; x07]])
         _ (mkRequestHeader (mkHeader false false) 1 (Some 42) [x05; x00])
         [x02; x2b; x06; x01; x00; x07] [] _ eq_refl eq_refl eq_refl eq_refl)) _ _).
    + reflexivity.
    + vm_compute. discriminate.
  - refine (proj1 (proj2 (proj2
      (@validation_order spec_imports 1 0%nat []
         (sample_world [[x02; x2a; x06; x09; x00; x07]])
         _ (mkRequestHeader (mkHeader false false) 1 (Some 42) [x05; x00])
         [x02; x2a; x06; x09; x00; x07] [] _ eq_refl eq_refl eq_refl eq_refl))) _ _ _).
    + reflexivity.
    + reflexivity.
    + vm_compute. discriminate.
Defined.

Lemma validation_total_on_3_or_5_bytes_witness :
  (@_check_read_response spec_imports 0%nat [x02; x2a] (sample_world [])).1
  = Raise StructError
  /\ (@_check_read_response spec_imports 0%nat [x02; x2a; x00; x01] (sample_world [])).1
     = Raise StructError.
Proof.
  pose proof (@validation_total_on_3_or_5_bytes spec_imports 0%nat (sample_world [])
                sample_header) as Hthm.
  split.
  - refine (proj2 (proj1 (Hthm [x02; x2a] eq_refl) _)). vm_compute. lia.
  - refine (proj2 (proj1 (proj2 (Hthm [x02; x2a; x00; x01] eq_refl)) eq_refl)
              _ eq_refl eq_refl eq_refl eq_refl).
Defined.

(** ** Parsing a response and caching its attributes *)

Lemma hoare_bind {A B} (P : world -> Prop) (c : M A) (R : A -> world -> Prop)
    (k : A -> M B) (Q : B -> world -> Prop) :
  hoare P c R -> (forall a, hoare (R a) (k a) Q) -> hoare P (bind c k) Q.
Proof.
  intros Hc Hk w b w' HP. unfold bind.
  destruct (c w) as [[a| |] w1] eqn:E; try discriminate.
  intros Hrun. exact (Hk a w1 b w' (Hc w a w1 HP E) Hrun).
Qed.

Lemma hoare_consequence {A} (P P' : world -> Prop) (c : M A) (Q Q' : A -> world -> Prop) :
  hoare P' c Q' -> (forall w, P w -> P' w) -> (forall a w, Q' a w -> Q a w) ->
  hoare P c Q.
Proof. intros Hc HP HQ w a w' Hw Hrun. eauto. Qed.

Lemma pure_step_hoare {A} (P : world -> Prop) (c : M A) :
  pure_step c -> hoare P c (fun _ => P).
Proof. intros Hc w a w' HP Hrun. rewrite (Hc _ _ _ Hrun). exact HP. Qed.

Lemma pure_ret {A} (a : A) : pure_step (ret a).
Proof. intros w o w' [= _ <-]. reflexivity. Qed.

Lemma pure_raise {A} (e : error) : pure_step (@raise A e).
Proof. intros w o w' [= _ <-]. reflexivity. Qed.

Lemma pure_lift {A} (o : outcome A) : pure_step (lift o).
Proof. intros w o' w' [= _ <-]. reflexivity. Qed.

Lemma pure_subscript {A} (o : option A) : pure_step (subscript o).
Proof. destruct o; [apply pure_ret|apply pure_raise]. Qed.

Lemma pure_getattr (key : string) : pure_step (getattr key).
Proof.
  intros w o w'. unfold getattr.
  destruct (attributes w !! key); intros [= _ <-]; reflexivity.
Qed.

Lemma pure_call (f : pyval) (b : bytes) : pure_step (call f b).
Proof. destruct f; try apply pure_raise. apply pure_lift. Qed.

Lemma pure_bind {A B} (c : M A) (k : A -> M B) :
  pure_step c -> (forall a, pure_step (k a)) -> pure_step (bind c k).
Proof.
  intros Hc Hk w o w'. unfold bind.
  destruct (c w) as [[a| |] w1] eqn:E.
  - intros Hrun. rewrite (Hk _ _ _ _ Hrun). exact (Hc _ _ _ E).
  - intros [= _ <-]. exact (Hc _ _ _ E).
  - intros [= _ <-]. exact (Hc _ _ _ E).
Qed.

Create HintDb pure.
#[local] Hint Resolve pure_ret pure_raise pure_lift pure_subscript pure_getattr
  pure_call : pure.

Section Parsing.
Context `{Imports}.

Lemma add_new_attrs_cached (new_attrs : list (string * pyval)) :
  forall attrs : gmap string pyval,
    hoare (cached attrs) (add_new_attrs new_attrs attrs) cached.
Proof.
  induction new_attrs as [|[key val] rest IH]; intros attrs.
  - intros w a w' HP [= <- <-]. exact HP.
  - cbn [add_new_attrs].
    apply (hoare_bind _ _ (fun _ => cached attrs)).
    { apply pure_step_hoare. destruct (attrs !! lower key); auto with pure. }
    intros v. apply (hoare_bind _ _ (fun _ => cached (<[lower key := v]> attrs))).
    { intros w [] w' HP [= <-]. unfold cached, set_attributes.
      cbn [heap entropy draws written incoming attributes].
      apply insert_mono. exact HP. }
    intros _. apply IH.
Qed.

Lemma parse_chunk_cached (chunk : Z * Z * bytes) (attrs : gmap string pyval) :
  hoare (cached attrs) (parse_chunk chunk attrs) cached.
Proof.
  destruct chunk as [[body_type length_] bytes_]. unfold parse_chunk.
  destruct (negb (len bytes_ =? length_)); [intros w a w' _; discriminate|].
  apply (hoare_bind _ _ (fun _ => cached attrs)).
  { apply pure_step_hoare. auto with pure. }
  intros name. apply (hoare_bind _ _ (fun _ => cached attrs)).
  { apply pure_step_hoare. destruct (bool_decide _); [auto with pure|].
    apply pure_bind; auto with pure. }
  intros converter. apply (hoare_bind _ _ (fun _ => cached attrs)).
  { apply pure_step_hoare.
    destruct (bool_decide (name = "GATT_Presentation_Format_Descriptor")).
    - apply pure_bind; [auto with pure|]. intros codes.
      apply pure_bind; [auto with pure|]. intros [format_code unit_code].
      apply pure_bind; [auto with pure|]. intros format_name.
      apply pure_bind; [auto with pure|]. intros format_converter.
      apply pure_bind; auto with pure.
    - destruct (bool_decide (name = "GATT_Valid_Range")).
      + apply pure_bind; [auto with pure|]. intros low.
        apply pure_bind; auto with pure.
      + apply pure_bind; auto with pure. }
  intros new_attrs. apply add_new_attrs_cached.
Qed.

Lemma parse_chunks_cached (chunks : list (Z * Z * bytes)) :
  forall attrs : gmap string pyval,
    hoare (cached attrs) (parse_chunks chunks attrs) cached.
Proof.
  induction chunks as [|chunk rest IH]; intros attrs.
  - intros w a w' HP [= <- <-]. exact HP.
  - cbn [parse_chunks]. apply (hoare_bind _ _ cached).
    + apply parse_chunk_cached.
    + intros attrs'. apply IH.
Qed.

(** Whatever [_parse_response] returns is cached on the characteristic. *)
Lemma _parse_response_cached (data : bytes) (w w' : world)
    (parsed : gmap string pyval) :
  _parse_response data w = (Ok parsed, w') -> parsed ⊆ attributes w'.
Proof.
  intros Hrun.
  apply (parse_chunks_cached (iterate_tvl (drop 5 data)) ∅ w parsed w'); [|exact Hrun].
  apply map_empty_subseteq.
Qed.

(** C5, as the code has it. A response that passes the validation and
    whose header has the continuation flag set is parsed before the flag
    is looked at. If the parsing succeeds, [write] fails with
    NotSupported and returns no attribute map, but every attribute
    parsed from the body stays cached on the characteristic object; if
    the parsing fails, [write] fails with the parsing's own error. *)
Theorem continuation_response_not_supported (fuel : nat) (l : addr)
    (TLVs : list (Z * bytes)) (w w1 w2 : world) (data : bytes) (more : list bytes)
    (rh : HapBlePduResponseHeader) :
  _request fuel l TLVs w = (Ok tt, w1) ->
  incoming w1 = data :: more ->
  _check_read_response l data (set_incoming more w1) = (Ok rh, w2) ->
  continuation rh = true ->
  (forall (parsed : gmap string pyval) (w3 : world),
      _parse_response data w2 = (Ok parsed, w3) ->
      write fuel l TLVs w = (Raise NotSupported, w3)
      /\ parsed ⊆ attributes w3)
  /\ (forall (e : error) (w3 : world),
         _parse_response data w2 = (Raise e, w3) ->
         write fuel l TLVs w = (Raise e, w3)).
Proof.
  intros Hreq Hin Hcheck Hcont.
  assert (forall o w3, _parse_response data w2 = (o, w3) ->
            write fuel l TLVs w
            = match o with
              | Ok _ => (Raise NotSupported, w3)
              | Raise e => (Raise e, w3)
              | OutOfFuel => (OutOfFuel, w3)
              end) as Hwrite.
  { intros o w3 Hparse. unfold write.
    rewrite (bind_run _ _ _ _ _ Hreq).
    unfold bind at 1. unfold _read at 1. rewrite Hin.
    rewrite (bind_run _ _ _ _ _ Hcheck).
    unfold bind at 1. rewrite Hparse. rewrite Hcont.
    destruct o; reflexivity. }
  split.
  - intros parsed w3 Hparse. split; [exact (Hwrite _ _ Hparse)|].
    exact (_parse_response_cached data w2 w3 parsed Hparse).
  - intros e w3 Hparse. exact (Hwrite _ _ Hparse).
Qed.

End Parsing.

(** C5 fails on [continued_response]: [write] does fail with
    NotSupported, but the characteristic object, which had no [value]
    attribute, now holds the value parsed from the body. *)
Lemma continuation_response_is_cached :
  let w := sample_world [continued_response] in
  let r := @write spec_imports 1 0%nat [] w in
  r.1 = Raise NotSupported
  /\ attributes w !! "value" = None
  /\ attributes r.2 !! "value" = Some (VBytes [x07]).
Proof. vm_compute. repeat split. Qed.

Lemma continuation_response_not_supported_witness :
  exists w3 : world,
    @write spec_imports 1 0%nat [] (sample_world [continued_response])
    = (Raise NotSupported, w3)
    /\ {["value" := VBytes [x07]]} ⊆ attributes w3.
Proof.
  pose (w := sample_world [continued_response]).
  pose (w1 := (@_request spec_imports 1 0%nat [] w).2).
  pose (w2 := (@_check_read_response spec_imports 0%nat continued_response
                 (set_incoming [] w1)).2).
  pose (w3 := (@_parse_response spec_imports continued_response w2).2).
  exists w3.
  apply (proj1 (@continuation_response_not_supported spec_imports 1 0%nat [] w w1 w2
                  continued_response []
                  (mkResponseHeader (mkHeader true true) 42 0)
                  ltac:(vm_compute; reflexivity) ltac:(vm_compute; reflexivity)
                  ltac:(vm_compute; reflexivity) eq_refl)
          {["value" := VBytes [x07]]} w3).
  vm_compute. reflexivity.
Defined.

(** ** The pairing-data exchange on sample responses *)

(** Three rounds, FragmentData X, FragmentData Y, FragmentLast Z: the
    result is X, Y, Z put end to end, and the second and third requests
    carry an empty FragmentData kTLV (type 12, length 0). *)
Lemma write_ktlvs_three_rounds :
  let w := sample_world [fragment_data_response x58; fragment_data_response x59;
                         fragment_last_response x5a] in
  let r := @write_ktlvs spec_imports 3 0%nat [(6, [x01])] w in
  r.1 = Ok {["kTLVType_FragmentData" := VBytes [x58; x59; x5a]]}
  /\ written r.2
     = [[x00; x01; x2a; x05; x00; x08; x00; x09; x01; x01; x01; x03; x06; x01; x01];
        [x00; x01; x2a; x05; x00; x07; x00; x09; x01; x01; x01; x02; x0c; x00];
        [x00; x01; x2a; x05; x00; x07; x00; x09; x01; x01; x01; x02; x0c; x00]].
Proof. vm_compute. repeat split. Qed.

(** C3, where the code departs from it. When the very first response
    holds FragmentLast (and no FragmentData), the accumulator is still
    empty: the branch of FragmentLast reads
    [assembled['kTLVType_FragmentData']] without a default, and
    [write_ktlvs] ends in a KeyError where the claim has it return the
    bytes of FragmentLast. *)
Theorem fragment_last_first_raises_key_error :
  let w := sample_world [fragment_last_response x5a] in
  (@write_ktlvs spec_imports 3 0%nat [(6, [x01])] w).1 = Raise KeyError
  /\ (@write spec_imports 3 0%nat [(9, [x01]); (1, [x06; x01; x01])] w).1
     = Ok {["value" := VBytes [x0d; x01; x5a]]}
  /\ spec_parse_ktlvs (VBytes [x0d; x01; x5a])
     = Ok {["kTLVType_FragmentLast" := VBytes [x5a]]}.
Proof. vm_compute. repeat split. Qed.

(** * More of the code *)

(** ** Response headers: decoding, then encoding *)

Lemma control_byte_repacks (b : byte) :
  reserved_bit_set b = false ->
  pack_B (control_field (mkHeader (Z.testbit (byte_to_Z b) 7)
                                  (Z.testbit (byte_to_Z b) 1)))
  = Ok b.
Proof. destruct b; intros Hb; vm_compute in Hb; try discriminate Hb; reflexivity. Qed.

(** [from_data] reads the first three bytes and nothing else: a header
    it decodes serialises, through [data], to these three bytes, and
    they alone decode to the same header. *)
Theorem from_data_then_data (data : bytes) (h : HapBlePduResponseHeader) :
  from_data data = Ok h ->
  response_header_data h = Ok (take 3 data)
  /\ from_data (take 3 data) = Ok h.
Proof.
  intros Hh. destruct data as [|b [|t [|s rest]]]; try discriminate Hh.
  change (take 3 (b :: t :: s :: rest)) with [b; t; s].
  rewrite from_data_control_byte in *.
  destruct (reserved_bit_set b) eqn:Hb; [discriminate Hh|].
  assert (h = mkResponseHeader
                (mkHeader (Z.testbit (byte_to_Z b) 7) (Z.testbit (byte_to_Z b) 1))
                (byte_to_Z t) (byte_to_Z s)) as -> by congruence.
  split; [|reflexivity].
  unfold response_header_data. cbn [resp_base transaction_id status_code].
  rewrite (control_byte_repacks b Hb), !pack_B_byte. reflexivity.
Qed.

Lemma from_data_then_data_witness :
  response_header_data (mkResponseHeader (mkHeader false true) 42 0)
  = Ok [x02; x2a; x00].
Proof.
  exact (proj1 (from_data_then_data [x02; x2a; x00; x01; x00; x07]
                  (mkResponseHeader (mkHeader false true) 42 0) eq_refl)).
Defined.

(** ** Request headers: the transaction identifier and the bytes *)

(** The [transaction_id] property chooses the identifier at its first
    read and keeps it: a header that has one returns it and nothing
    changes; a header that has none draws one 8-bit value from the
    random source and stores it; in both cases the next read returns the
    same value and changes nothing. *)
Theorem transaction_id_chosen_once (l : addr) (w : world) (h : HapBlePduRequestHeader) :
  heap w !! l = Some h ->
  exists (t : Z) (w1 : world),
    request_transaction_id l w = (Ok t, w1)
    /\ request_transaction_id l w1 = (Ok t, w1)
    /\ heap w1 !! l = Some (with_transaction_id t h)
    /\ (forall t0, _transaction_id h = Some t0 -> t = t0 /\ w1 = w)
    /\ (_transaction_id h = None -> 0 <= t <= 255 /\ draws w1 = S (draws w)).
Proof.
  intros Hl. exists (settled_tid h w), (settled l h w).
  pose proof (settled_heap l h w Hl) as Hl1.
  split; [apply request_transaction_id_run, Hl|].
  split; [rewrite (request_transaction_id_run _ l _ Hl1); reflexivity|].
  split; [exact Hl1|]. split.
  - intros t0 Ht0. unfold settled_tid, settled. rewrite Ht0. auto.
  - intros Hnone. unfold settled_tid, settled. rewrite Hnone.
    split; [apply byte_to_Z_range|reflexivity].
Qed.

Lemma transaction_id_chosen_once_witness :
  exists (t : Z) (w1 : world),
    request_transaction_id 0%nat (sample_world []) = (Ok t, w1)
    /\ request_transaction_id 0%nat w1 = (Ok t, w1).
Proof.
  destruct (transaction_id_chosen_once 0%nat (sample_world []) sample_header eq_refl)
    as (t & w1 & H1 & H2 & _).
  exists t, w1. split; assumption.
Defined.

Lemma header_wire_layout (h : HapBlePduRequestHeader) (t : Z) :
  0 <= op_code h <= 255 -> 0 <= t <= 255 ->
  exists c o tb : byte,
    byte_to_Z c = control_field h
    /\ byte_to_Z o = op_code h
    /\ byte_to_Z tb = t
    /\ header_wire h t
       = Ok (if continuation h then [c; tb] else [c; o; tb] ++ cid_sid h).
Proof.
  intros Ho Ht.
  assert (0 <= control_field h <= 255) as Hc
    by (rewrite control_field_value; destruct (continuation h), (response h); lia).
  destruct (pack_B_in_range _ Hc) as (c & Hpc & Hcv).
  destruct (pack_B_in_range _ Ho) as (o & Hpo & Hov).
  destruct (pack_B_in_range _ Ht) as (tb & Hpt & Htv).
  exists c, o, tb. repeat split; try assumption.
  unfold header_wire. rewrite Hpc, Hpo, Hpt. destruct (continuation h); reflexivity.
Qed.

(** [HapBlePduRequestHeader.data]: a continuation header is the control
    byte and the transaction identifier; any other header is the control
    byte, the opcode, the transaction identifier and the instance
    identifier. The control byte is 128 for the continuation flag plus 2
    for the response flag. Reading the property again gives the same
    bytes and changes nothing. *)
Theorem request_header_data_layout (l : addr) (w : world) (h : HapBlePduRequestHeader) :
  heap w !! l = Some h -> wf_header h ->
  exists (c o tb : byte) (w1 : world),
    request_header_data l w
    = (Ok (if continuation h then [c; tb] else [c; o; tb] ++ cid_sid h), w1)
    /\ byte_to_Z c
       = (if continuation h then 128 else 0) + (if response h then 2 else 0)
    /\ byte_to_Z o = op_code h
    /\ byte_to_Z tb = settled_tid h w
    /\ request_header_data l w1
       = (Ok (if continuation h then [c; tb] else [c; o; tb] ++ cid_sid h), w1).
Proof.
  intros Hl Hwf. pose proof (settled_tid_range h w Hwf) as Ht.
  destruct Hwf as [Ho _].
  destruct (header_wire_layout h _ Ho Ht) as (c & o & tb & Hc & Hov & Htv & Hwire).
  exists c, o, tb, (settled l h w).
  rewrite (request_header_data_run w l h Hl), Hwire.
  split; [reflexivity|]. split; [rewrite Hc; apply control_field_value|].
  split; [exact Hov|]. split; [exact Htv|].
  rewrite (request_header_data_settled _ l _ (settled_tid h w) (settled_heap l h w Hl)
             eq_refl).
  rewrite header_wire_with_transaction_id, Hwire. reflexivity.
Qed.

Lemma request_header_data_layout_witness :
  exists (c o tb : byte) (w1 : world),
    request_header_data 0%nat (sample_world []) = (Ok ([c; o; tb] ++ [x05; x00]), w1)
    /\ byte_to_Z c = 0 /\ byte_to_Z o = 1 /\ byte_to_Z tb = 42.
Proof.
  destruct (request_header_data_layout 0%nat (sample_world []) sample_header eq_refl
              sample_header_wf) as (c & o & tb & w1 & Hrun & Hc & Ho & Ht & _).
  exists c, o, tb, w1. repeat split; assumption.
Defined.

(** ** Which responses the validation accepts *)

Section Acceptance.
Context `{Imports}.

(** [_check_read_response] returns a header exactly when the response
    decodes to it, has the response flag, the request's transaction
    identifier and the status code of success, and either stops after
    the 3 bytes of the header or goes on with a 2-byte length equal to
    the number of bytes after it. *)
Theorem check_accepts_exactly (l : addr) (w : world) (h : HapBlePduRequestHeader)
    (data : bytes) (rh : HapBlePduResponseHeader) :
  heap w !! l = Some h ->
  (_check_read_response l data w).1 = Ok rh
  <-> (from_data data = Ok rh
       /\ response rh = true
       /\ transaction_id rh = settled_tid h w
       /\ status_code rh = HapBleStatusCodes_Success
       /\ (length data = 3%nat
           \/ exists n : Z,
               unpack_H (take 2 (drop 3 data)) = Ok n /\ len (drop 5 data) = n)).
Proof.
  intros Hl. split.
  - destruct (from_data data) as [rh'| |] eqn:Hrh.
    + rewrite (_check_read_response_run l w h data rh' Hl Hrh). unfold checked.
      destruct (response rh') eqn:Hr; cbn [negb]; [|discriminate].
      destruct (transaction_id rh' =? settled_tid h w) eqn:Ht; cbn [negb];
        [|discriminate].
      destruct (status_code rh' =? HapBleStatusCodes_Success) eqn:Hs; cbn [negb];
        [|discriminate].
      apply Z.eqb_eq in Ht, Hs.
      destruct (3 <? len data) eqn:H3.
      * destruct (unpack_H (take 2 (drop 3 data))) as [n| |] eqn:Hn; try discriminate.
        destruct (len (drop 5 data) =? n) eqn:Hlen; cbn [negb]; [|discriminate].
        apply Z.eqb_eq in Hlen. intros [= <-]. repeat split; try assumption.
        right. exists n. split; [reflexivity|assumption].
      * intros [= <-]. repeat split; try assumption. left.
        apply Z.ltb_ge in H3. unfold len in H3.
        destruct data as [|? [|? [|? ?]]]; try discriminate Hrh.
        cbn in H3 |- *. lia.
    + rewrite (_check_read_response_undecoded l w data e Hrh). discriminate.
    + unfold _check_read_response. rewrite Hrh. discriminate.
  - intros (Hrh & Hr & Ht & Hs & Hlen).
    rewrite (_check_read_response_run l w h data rh Hl Hrh). unfold checked.
    rewrite Hr, Ht, Hs, !Z.eqb_refl. cbn [negb].
    destruct Hlen as [H3|(n & Hn & Hlen)].
    + replace (3 <? len data) with false; [reflexivity|].
      symmetry. apply Z.ltb_ge. unfold len. lia.
    + rewrite Hn. apply Z.eqb_eq in Hlen. rewrite Hlen.
      destruct (3 <? len data); reflexivity.
Qed.

End Acceptance.

Lemma check_accepts_exactly_witness :
  (@_check_read_response spec_imports 0%nat [x02; x2a; x00; x03; x00; x01; x01; x07]
     (sample_world [])).1
  = Ok (mkResponseHeader (mkHeader false true) 42 0).
Proof.
  apply (proj2 (@check_accepts_exactly spec_imports 0%nat (sample_world []) sample_header
                  [x02; x2a; x00; x03; x00; x01; x01; x07]
                  (mkResponseHeader (mkHeader false true) 42 0) eq_refl)).
  repeat split. right. exists 3. split; reflexivity.
Defined.

(** ** The fragmenter: greedy packing, the transaction identifier, the
    PDUs of 511 and 512 bytes *)

(** The inner loop of [fragment_tlvs] is greedy: it appends whole chunks
    from the front of the list, keeps the fragment under 512 bytes, and
    stops only when the list is empty or when the next chunk would bring
    the fragment to 512 bytes or more. *)
Theorem fill_fragment_greedy (fragment_data : bytes) (prepared : list bytes)
    (data : bytes) (rest : list bytes) :
  fill_fragment fragment_data prepared = (data, rest) ->
  (exists taken : list bytes,
      prepared = taken ++ rest /\ data = fragment_data ++ concat taken)
  /\ (len fragment_data < max_len -> len data < max_len)
  /\ match rest with
     | [] => True
     | next :: _ => max_len <= len data + len next
     end.
Proof.
  revert fragment_data. induction prepared as [|chunk more IH]; intros fd; cbn [fill_fragment].
  - intros [= <- <-]. split; [exists []; split; [reflexivity|]|split; auto].
    cbn. rewrite app_nil_r. reflexivity.
  - destruct (len fd + len chunk <? max_len) eqn:E.
    + intros Hfill. destruct (IH _ Hfill) as ((taken & -> & ->) & Hbound & Hnext).
      split; [|split].
      * exists (chunk :: taken). split; [reflexivity|].
        cbn [concat]. rewrite app_assoc. reflexivity.
      * intros _. apply Hbound. rewrite len_app. apply Z.ltb_lt. exact E.
      * exact Hnext.
    + intros [= <- <-]. split; [|split].
      * exists []. split; [reflexivity|]. cbn. rewrite app_nil_r. reflexivity.
      * auto.
      * apply Z.ltb_ge. exact E.
Qed.

Lemma fill_fragment_greedy_witness :
  exists (data : bytes) (next : bytes) (rest : list bytes),
    fill_fragment [] big_chunks = (data, next :: rest)
    /\ len data < max_len
    /\ max_len <= len data + len next.
Proof.
  pose proof (fill_fragment_greedy [] big_chunks
                (fill_fragment [] big_chunks).1 (fill_fragment [] big_chunks).2) as Hthm.
  exists (fill_fragment [] big_chunks).1,
    (x01 :: xff :: replicate 255 x00), [].
  split; [vm_compute; reflexivity|].
  destruct Hthm as (_ & Hbound & Hnext).
  - vm_compute. reflexivity.
  - split; [apply Hbound; reflexivity|].
    change (fill_fragment [] big_chunks).2
      with [x01 :: xff :: replicate 255 x00] in Hnext.
    exact Hnext.
Defined.

Section MoreRequests.
Context `{Imports}.

(** In a fragmented request the opcode and the instance identifier
    travel in the first fragment only, and every fragment carries the
    same transaction identifier: the first fragment starts with control
    byte, opcode, transaction identifier, instance identifier; each
    following one with a control byte that has bit 7 set and the same
    transaction identifier; the header object keeps that identifier. *)
Theorem fragments_carry_one_transaction_id (fuel : nat) (l : addr) (w : world)
    (h : HapBlePduRequestHeader) (TLVs : list (Z * bytes)) (chunks : list bytes) :
  heap w !! l = Some h -> wf_header h -> continuation h = false ->
  prepared_tlvs TLVs = Ok chunks ->
  Forall (fun chunk => len chunk < max_len) chunks ->
  (length chunks <= fuel)%nat ->
  max_len < header_len h + 2 + len (concat chunks) ->
  chunks <> [] ->
  exists (w' : world) (c0 o c tb : byte) (gs : list (list bytes)) (fs : list bytes),
    _request fuel l TLVs w = (Ok tt, w')
    /\ written w' = written w ++ fs
    /\ byte_to_Z o = op_code h
    /\ byte_to_Z tb = settled_tid h w
    /\ Z.testbit (byte_to_Z c) 7 = true
    /\ are_fragments ([c0; o; tb] ++ cid_sid h) [c; tb] gs fs
    /\ concat gs = chunks
    /\ (exists h' : HapBlePduRequestHeader,
           heap w' !! l = Some h'
           /\ _transaction_id h' = Some (settled_tid h w)).
Proof.
  intros Hl Hwf Hcont Hprep Hsmall Hfuel Hbig Hne.
  pose proof (settled_tid_range h w Hwf) as Ht.
  destruct (wf_header_wire h w Hwf) as (hd & c & tb & Hhd & Hlen & Hhd' & H7 & Htb).
  destruct (header_wire_layout h _ (proj1 Hwf) Ht)
    as (c0 & o & tb0 & _ & Ho & Htb0 & Hwire).
  rewrite Hcont, Hhd in Hwire. injection Hwire as ->.
  assert (tb0 = tb) as ->.
  { rewrite <- Htb in Htb0. clear -Htb0. destruct tb0, tb; try reflexivity;
      vm_compute in Htb0; discriminate Htb0. }
  rewrite <- Hlen in Hbig.
  destruct (_request_oversized fuel l w h TLVs chunks _ [c; tb] Hl Hprep
              (prepared_tlvs_nil_inv _ _ Hprep Hne) Hhd Hhd' Hbig Hsmall Hfuel)
    as (gs & fs & Hrun & Hcat & Hgs & Hfs).
  assert (gs <> []) as Hgne by (intros ->; cbn in Hcat; congruence).
  destruct (are_fragments_nonempty _ _ _ _ Hfs Hgne)
    as (g & gs' & f & fs' & -> & -> & Hf & Hfs').
  eexists _, c0, o, c, tb, (g :: gs'), (f :: fs').
  split; [exact Hrun|]. split.
  { unfold after_fragments, set_written.
    cbn [heap entropy draws written incoming attributes].
    destruct (settled_frame l h w) as (-> & _). reflexivity. }
  do 3 (split; [assumption|]). split; [exact Hfs|]. split; [exact Hcat|].
  eexists. split.
  - unfold after_fragments, set_written, set_heap.
    cbn [heap entropy draws written incoming attributes]. apply lookup_insert_eq.
  - reflexivity.
Qed.

(** A PDU of 511 or 512 bytes (header and parameter bytes) is not
    [fragmented] for [HapBlePdu], but with its 2-byte length it does not
    fit in 512 bytes: [fragment_tlvs] sends it through its fragment
    loop, as one write of 513 or 514 bytes, and leaves the header object
    with the continuation flag set. *)
Theorem pdu_of_511_or_512_bytes (fuel : nat) (l : addr) (w : world)
    (h : HapBlePduRequestHeader) (TLVs : list (Z * bytes)) (chunks : list bytes)
    (hd : bytes) :
  heap w !! l = Some h ->
  prepared_tlvs TLVs = Ok chunks ->
  header_wire h (settled_tid h w) = Ok hd ->
  header_len h + 2 <= max_len ->
  max_len - 2 < len hd + len (concat chunks) <= max_len ->
  exists (w' : world) (n : bytes),
    (fragmented l TLVs w).1 = Ok false
    /\ _request (S fuel) l TLVs w = (Ok tt, w')
    /\ written w' = written w ++ [hd ++ n ++ concat chunks]
    /\ len (hd ++ n ++ concat chunks) = len hd + len (concat chunks) + 2
    /\ max_len < len (hd ++ n ++ concat chunks)
    /\ heap w' !! l
       = Some (with_continuation true (with_transaction_id (settled_tid h w) h)).
Proof.
  intros Hl Hprep Hhd Hhlen [Hlo Hhi].
  pose proof (header_wire_len _ _ _ Hhd) as Hlen. fold (header_len h) in Hlen.
  assert (chunks <> []) as Hne.
  { intros ->. change (len (concat [])) with 0 in Hlo. lia. }
  destruct (wf_header_wire_any h w hd Hhd) as (hd' & Hhd').
  assert (TLVs <> []) as HneT by exact (prepared_tlvs_nil_inv _ _ Hprep Hne).
  assert (max_len < len hd + 2 + len (concat chunks)) as Hbig by lia.
  destruct (fragment_loop_single fuel l (settled l h w)
              (with_transaction_id (settled_tid h w) h) (settled_tid h w) hd chunks
              (settled_heap l h w Hl) eq_refl Hhd Hne) as (n & Hn & Hrun).
  { pose proof (len_nonneg (cid_sid h)). unfold header_len in *.
    destruct (continuation h); unfold max_len in *; lia. }
  exists (after_fragments l (with_transaction_id (settled_tid h w) h)
            [hd ++ n ++ concat chunks] (settled l h w)), n.
  split; [|split; [|split; [|split; [|split]]]].
  - unfold fragmented, raw_data. rewrite Hprep.
    unfold lift at 1. unfold bind at 1 2. unfold bind at 1.
    rewrite (request_header_data_run w l h Hl), Hhd.
    cbn [fst ret]. f_equal. apply Z.ltb_ge. rewrite len_app. lia.
  - rewrite (_request_fragments (S fuel) l w h TLVs chunks hd hd' Hl Hprep HneT Hhd Hhd'
               Hbig).
    exact Hrun.
  - unfold after_fragments, set_written.
    cbn [heap entropy draws written incoming attributes].
    destruct (settled_frame l h w) as (-> & _). reflexivity.
  - rewrite !len_app, (pack_H_length _ _ Hn). lia.
  - rewrite !len_app, (pack_H_length _ _ Hn). lia.
  - unfold after_fragments, set_written, set_heap.
    cbn [heap entropy draws written incoming attributes]. apply lookup_insert_eq.
Qed.

End MoreRequests.

Lemma fragments_carry_one_transaction_id_witness :
  exists (w' : world) (c0 o c tb : byte) (gs : list (list bytes)) (fs : list bytes),
    @_request spec_imports 3 0%nat big_TLVs (sample_world []) = (Ok tt, w')
    /\ written w' = fs
    /\ byte_to_Z o = 1
    /\ byte_to_Z tb = 42
    /\ are_fragments ([c0; o; tb] ++ [x05; x00]) [c; tb] gs fs.
Proof.
  destruct (@fragments_carry_one_transaction_id spec_imports 3 0%nat (sample_world [])
              sample_header big_TLVs big_chunks eq_refl sample_header_wf eq_refl
              big_TLVs_prepared big_chunks_small)
    as (w' & c0 & o & c & tb & gs & fs & Hrun & Hw & Ho & Ht & _ & Hfs & _).
  - vm_compute. lia.
  - vm_compute. reflexivity.
  - discriminate.
  - exists w', c0, o, c, tb, gs, fs. repeat split; assumption.
Defined.

Lemma pdu_of_511_or_512_bytes_witness :
  exists w' : world,
    (@fragmented spec_imports 0%nat edge_TLVs (sample_world [])).1 = Ok false
    /\ @_request spec_imports 1 0%nat edge_TLVs (sample_world []) = (Ok tt, w')
    /\ map len (written w') = [513]
    /\ (with_transaction_id 42 <$> (heap w' !! 0%nat))
       = Some (mkRequestHeader (mkHeader true false) 1 (Some 42) [x05; x00]).
Proof.
  destruct (@pdu_of_511_or_512_bytes spec_imports 0 0%nat (sample_world []) sample_header
              edge_TLVs edge_chunks [x00; x01; x2a; x05; x00] eq_refl)
    as (w' & n & Hfrag & Hrun & Hw & Hlen & _ & Hheap).
  - vm_compute. reflexivity.
  - reflexivity.
  - vm_compute. discriminate.
  - vm_compute. split; [reflexivity|discriminate].
  - exists w'. split; [exact Hfrag|]. split; [exact Hrun|]. split.
    + replace (map len (written w'))
        with [len ([x00; x01; x2a; x05; x00] ++ n ++ concat edge_chunks)]
        by (rewrite Hw; reflexivity).
      rewrite Hlen. reflexivity.
    + rewrite Hheap. reflexivity.
Defined.

(** ** What each operation leaves untouched *)

Lemma keeps_bind {A B} (R : world -> world -> Prop) (c : M A) (k : A -> M B) :
  Transitive R -> keeps R c -> (forall a, keeps R (k a)) -> keeps R (bind c k).
Proof.
  intros HR Hc Hk w o w'. unfold bind.
  destruct (c w) as [[a| |] w1] eqn:E.
  - intros Hrun. exact (HR _ _ _ (Hc _ _ _ E) (Hk _ _ _ _ Hrun)).
  - intros [= _ <-]. exact (Hc _ _ _ E).
  - intros [= _ <-]. exact (Hc _ _ _ E).
Qed.

Lemma keeps_pure {A} (R : world -> world -> Prop) (c : M A) :
  Reflexive R -> pure_step c -> keeps R c.
Proof. intros HR Hc w o w' Hrun. rewrite (Hc _ _ _ Hrun). apply HR. Qed.

#[local] Instance only_writes_refl : Reflexive only_writes.
Proof. intros w. repeat split. exists []. rewrite app_nil_r. reflexivity. Qed.

#[local] Instance only_writes_trans : Transitive only_writes.
Proof.
  intros w1 w2 w3 (Hi1 & Ha1 & m1 & Hw1) (Hi2 & Ha2 & m2 & Hw2).
  split; [congruence|]. split; [congruence|].
  exists (m1 ++ m2). rewrite Hw2, Hw1, app_assoc. reflexivity.
Qed.

#[local] Instance same_transport_and_attributes_refl :
  Reflexive same_transport_and_attributes.
Proof. intros w. repeat split. Qed.

#[local] Instance same_transport_and_attributes_trans :
  Transitive same_transport_and_attributes.
Proof. intros w1 w2 w3 (? & ? & ?) (? & ? & ?). repeat split; congruence. Qed.

#[local] Instance only_sets_attributes_refl : Reflexive only_sets_attributes.
Proof. intros w. repeat split. set_solver. Qed.

#[local] Instance only_sets_attributes_trans : Transitive only_sets_attributes.
Proof.
  intros w1 w2 w3 (? & ? & ? & ? & ?) (? & ? & ? & ? & ?).
  repeat split; try congruence. set_solver.
Qed.

(** The header operations change the heap and the random source only. *)
Lemma request_transaction_id_frame (l : addr) (w : world) :
  let w' := (request_transaction_id l w).2 in
  written w' = written w /\ incoming w' = incoming w /\ attributes w' = attributes w.
Proof.
  unfold request_transaction_id, bind, deref.
  destruct (heap w !! l) as [h|] eqn:Hl; [|repeat split].
  destruct (_transaction_id h); [repeat split|].
  unfold getrandbits8, update, ret. cbn. repeat split.
Qed.

Lemma request_header_data_frame (l : addr) (w : world) :
  let w' := (request_header_data l w).2 in
  written w' = written w /\ incoming w' = incoming w /\ attributes w' = attributes w.
Proof.
  destruct (heap w !! l) as [h|] eqn:Hl.
  - cbn zeta. rewrite (request_header_data_run w l h Hl). cbn [snd].
    destruct (settled_frame l h w) as (? & ? & ? & _). auto.
  - unfold request_header_data, bind, deref. rewrite Hl. repeat split.
Qed.

Lemma keeps_request_header_data_writes (l : addr) :
  keeps only_writes (request_header_data l).
Proof.
  intros w o w' Hrun. pose proof (request_header_data_frame l w) as Hf.
  rewrite Hrun in Hf. cbn in Hf. destruct Hf as (Hw & Hi & Ha).
  split; [exact Hi|]. split; [exact Ha|]. exists []. rewrite app_nil_r. exact Hw.
Qed.

Lemma keeps_characteristic_write (data : bytes) :
  keeps only_writes (characteristic_write data).
Proof. intros w o w' [= _ <-]. repeat split. exists [data]. reflexivity. Qed.

Lemma keeps_update_writes (l : addr) (f : HapBlePduRequestHeader -> HapBlePduRequestHeader) :
  keeps only_writes (update l f).
Proof.
  intros w o w' [= _ <-]. repeat split. exists []. cbn. rewrite app_nil_r. reflexivity.
Qed.

Lemma keeps_fragment_loop (l : addr) (fuel : nat) :
  forall prepared : list bytes,
    keeps only_writes (fragment_loop fuel l prepared characteristic_write).
Proof.
  induction fuel as [|fuel IH]; intros [|chunk rest]; cbn [fragment_loop];
    try (apply keeps_pure; [typeclasses eauto|]; intros w o w' [= _ <-]; reflexivity).
  destruct (fill_fragment [] (chunk :: rest)) as [fragment_data left].
  apply keeps_bind; [typeclasses eauto|apply keeps_request_header_data_writes|].
  intros hd. apply keeps_bind; [typeclasses eauto| |].
  { apply keeps_pure; [typeclasses eauto|apply pure_lift]. }
  intros n. apply keeps_bind; [typeclasses eauto|apply keeps_characteristic_write|].
  intros _. apply keeps_bind; [typeclasses eauto|apply keeps_update_writes|].
  intros _. apply IH.
Qed.

Section Frames.
Context `{Imports}.

Lemma keeps_request (fuel : nat) (l : addr) (body : list (Z * bytes)) :
  keeps only_writes (_request fuel l body).
Proof.
  destruct body as [|tlv body]; cbn [_request].
  - apply keeps_bind; [typeclasses eauto|apply keeps_request_header_data_writes|].
    intros hd. apply keeps_characteristic_write.
  - unfold fragment_tlvs.
    apply keeps_bind; [typeclasses eauto| |].
    { apply keeps_pure; [typeclasses eauto|apply pure_lift]. }
    intros prepared.
    apply keeps_bind; [typeclasses eauto|apply keeps_request_header_data_writes|].
    intros hd. destruct (_ <=? _).
    + apply keeps_bind; [typeclasses eauto|apply keeps_request_header_data_writes|].
      intros hd'. apply keeps_bind; [typeclasses eauto| |].
      { apply keeps_pure; [typeclasses eauto|apply pure_lift]. }
      intros n. apply keeps_characteristic_write.
    + apply keeps_fragment_loop.
Qed.

(** [_request] only writes: whatever the request and however it ends,
    it reads nothing from the characteristic, sets no attribute of the
    characteristic object, and leaves what was written before in place,
    adding its own writes after it. *)
Theorem request_only_writes (fuel : nat) (l : addr) (body : list (Z * bytes))
    (w : world) :
  let w' := (_request fuel l body w).2 in
  incoming w' = incoming w
  /\ attributes w' = attributes w
  /\ exists more : list bytes, written w' = written w ++ more.
Proof.
  cbn zeta. destruct (_request fuel l body w) as [o w'] eqn:Hrun.
  exact (keeps_request fuel l body w o w' Hrun).
Qed.

Lemma keeps_check (l : addr) (data : bytes) :
  keeps same_transport_and_attributes (_check_read_response l data).
Proof.
  unfold _check_read_response.
  apply keeps_bind; [typeclasses eauto| |].
  { apply keeps_pure; [typeclasses eauto|apply pure_lift]. }
  intros rh. destruct (negb (response rh)).
  { apply keeps_pure; [typeclasses eauto|apply pure_raise]. }
  apply keeps_bind; [typeclasses eauto| |].
  { intros w o w' Hrun. pose proof (request_transaction_id_frame l w) as Hf.
    rewrite Hrun in Hf. exact Hf. }
  intros tid. apply keeps_pure; [typeclasses eauto|].
  destruct (negb _); [apply pure_raise|].
  destruct (negb _); [apply pure_raise|].
  destruct (3 <? len data); [|apply pure_ret].
  apply pure_bind; [apply pure_lift|]. intros n.
  destruct (negb _); [apply pure_raise|apply pure_ret].
Qed.

Lemma keeps_setattr (key : string) (val : pyval) :
  keeps only_sets_attributes (setattr key val).
Proof.
  intros w o w' [= _ <-]. repeat split. cbn. rewrite dom_insert_L. set_solver.
Qed.

Lemma keeps_add_new_attrs (new_attrs : list (string * pyval)) :
  forall attrs, keeps only_sets_attributes (add_new_attrs new_attrs attrs).
Proof.
  induction new_attrs as [|[key val] rest IH]; intros attrs; cbn [add_new_attrs].
  - apply keeps_pure; [typeclasses eauto|apply pure_ret].
  - apply keeps_bind; [typeclasses eauto| |].
    { apply keeps_pure; [typeclasses eauto|].
      destruct (attrs !! lower key); [apply pure_lift|apply pure_ret]. }
    intros v. apply keeps_bind; [typeclasses eauto|apply keeps_setattr|].
    intros _. apply IH.
Qed.

Lemma pure_new_attrs (name : string) (converter : pyval) (bytes_ : bytes) :
  pure_step
    (if bool_decide (name = "GATT_Presentation_Format_Descriptor") then
       codes <- call converter bytes_ ;;
       pair <- lift (py_unpack2 codes) ;;
       let '(format_code, unit_code) := pair in
       format_name <- subscript (format_code_to_name format_code) ;;
       format_converter <- subscript (format_name_to_converter format_name) ;;
       unit_name <- subscript (unit_code_to_name unit_code) ;;
       ret [("HAP_Format", VStr format_name);
            ("HAP_Format_Converter", VFun format_converter);
            ("HAP_Unit", VStr unit_name)]
     else if bool_decide (name = "GATT_Valid_Range") then
       let half := (length bytes_ `div` 2)%nat in
       low <- call converter (take half bytes_) ;;
       high <- call converter (drop half bytes_) ;;
       ret [("min_value", low); ("max_value", high)]
     else
       v <- call converter bytes_ ;;
       ret [(name, v)])%py.
Proof.
  destruct (bool_decide (name = "GATT_Presentation_Format_Descriptor")).
  - apply pure_bind; [auto with pure|]. intros codes.
    apply pure_bind; [auto with pure|]. intros [format_code unit_code].
    apply pure_bind; [auto with pure|]. intros format_name.
    apply pure_bind; [auto with pure|]. intros format_converter.
    apply pure_bind; auto with pure.
  - destruct (bool_decide (name = "GATT_Valid_Range")).
    + apply pure_bind; [auto with pure|]. intros low.
      apply pure_bind; auto with pure.
    + apply pure_bind; auto with pure.
Qed.

Lemma keeps_parse_chunk (chunk : Z * Z * bytes) (attrs : gmap string pyval) :
  keeps only_sets_attributes (parse_chunk chunk attrs).
Proof.
  destruct chunk as [[body_type length_] bytes_]. unfold parse_chunk.
  destruct (negb _).
  { apply keeps_pure; [typeclasses eauto|apply pure_raise]. }
  apply keeps_bind; [typeclasses eauto| |].
  { apply keeps_pure; [typeclasses eauto|apply pure_subscript]. }
  intros name. apply keeps_bind; [typeclasses eauto| |].
  { apply keeps_pure; [typeclasses eauto|].
    destruct (bool_decide _); [apply pure_getattr|].
    apply pure_bind; auto with pure. }
  intros converter. apply keeps_bind; [typeclasses eauto| |].
  { apply keeps_pure; [typeclasses eauto|apply pure_new_attrs]. }
  intros new_attrs. apply keeps_add_new_attrs.
Qed.

Lemma keeps_parse_chunks (chunks : list (Z * Z * bytes)) :
  forall attrs, keeps only_sets_attributes (parse_chunks chunks attrs).
Proof.
  induction chunks as [|chunk rest IH]; intros attrs; cbn [parse_chunks].
  - apply keeps_pure; [typeclasses eauto|apply pure_ret].
  - apply keeps_bind; [typeclasses eauto|apply keeps_parse_chunk|].
    intros attrs'. apply IH.
Qed.

(** [_parse_response] touches nothing but the attributes of the
    characteristic object, whether it succeeds or fails: the request
    headers, the random source and the transport are as they were, and
    no attribute the object had is removed. *)
Theorem parse_response_only_sets_attributes (data : bytes) (w : world) :
  let w' := (_parse_response data w).2 in
  heap w' = heap w
  /\ draws w' = draws w
  /\ written w' = written w
  /\ incoming w' = incoming w
  /\ dom (attributes w) ⊆ dom (attributes w').
Proof.
  cbn zeta. destruct (_parse_response data w) as [o w'] eqn:Hrun.
  exact (keeps_parse_chunks _ _ w o w' Hrun).
Qed.

(** [write] reads the characteristic exactly once when the request went
    out, and not at all when the request failed; after the request it
    writes nothing more, whatever the response is. *)
Theorem write_reads_one_response (fuel : nat) (l : addr) (TLVs : list (Z * bytes))
    (w : world) :
  let req := _request fuel l TLVs w in
  let res := write fuel l TLVs w in
  incoming res.2 = match req.1 with
                   | Ok _ => tail (incoming w)
                   | _ => incoming w
                   end
  /\ written res.2 = written req.2.
Proof.
  cbn zeta. unfold write.
  destruct (_request fuel l TLVs w) as [o1 w1] eqn:Hreq. cbn [fst snd] in *.
  pose proof (keeps_request fuel l TLVs w o1 w1 Hreq) as (Hi & _ & _).
  destruct o1 as [[]|e|].
  2: { rewrite (bind_raise _ _ _ _ _ Hreq). split; [exact Hi|reflexivity]. }
  2: { rewrite (bind_out_of_fuel _ _ _ _ Hreq). split; [exact Hi|reflexivity]. }
  rewrite (bind_run _ _ _ _ _ Hreq). rewrite <- Hi.
  destruct (incoming w1) as [|data more] eqn:Hin.
  { assert (_read w1 = (Raise TransportError, w1)) as Hread
      by (unfold _read; rewrite Hin; reflexivity).
    rewrite (bind_raise _ _ _ _ _ Hread). split; [exact Hin|reflexivity]. }
  assert (_read w1 = (Ok data, set_incoming more w1)) as Hread
    by (unfold _read; rewrite Hin; reflexivity).
  rewrite (bind_run _ _ _ _ _ Hread). cbn [tail].
  destruct (_check_read_response l data (set_incoming more w1)) as [o2 w2] eqn:Hcheck.
  pose proof (keeps_check l data _ _ _ Hcheck) as (Hw2 & Hi2 & _).
  cbn in Hw2, Hi2.
  destruct o2 as [rh|e|].
  2: { rewrite (bind_raise _ _ _ _ _ Hcheck). cbn [snd]. split; assumption. }
  2: { rewrite (bind_out_of_fuel _ _ _ _ Hcheck). cbn [snd]. split; assumption. }
  rewrite (bind_run _ _ _ _ _ Hcheck).
  destruct (_parse_response data w2) as [o3 w3] eqn:Hparse.
  pose proof (keeps_parse_chunks _ _ _ _ _ Hparse) as (_ & _ & Hw3 & Hi3 & _).
  destruct o3 as [parsed|e|].
  2: { rewrite (bind_raise _ _ _ _ _ Hparse). cbn [snd]. split; congruence. }
  2: { rewrite (bind_out_of_fuel _ _ _ _ Hparse). cbn [snd]. split; congruence. }
  rewrite (bind_run _ _ _ _ _ Hparse).
  destruct (continuation rh); split; cbn; congruence.
Qed.

End Frames.

(** ** Parsing the body of a response *)



Lemma bind_assoc {A B C} (c : M A) (k : A -> M B) (k' : B -> M C) (w : world) :
  bind (bind c k) k' w = bind c (fun a => bind (k a) k') w.
Proof. unfold bind. destruct (c w) as [[a| |] w1]; reflexivity. Qed.

Lemma bind_ret {A B} (a : A) (k : A -> M B) (w : world) : bind (ret a) k w = k a w.
Proof. reflexivity. Qed.

Lemma bind_lift_ok {A B} (a : A) (k : A -> M B) (w : world) :
  bind (lift (Ok a)) k w = k a w.
Proof. reflexivity. Qed.

Lemma bind_subscript_some {A B} (a : A) (k : A -> M B) (w : world) :
  bind (subscript (Some a)) k w = k a w.
Proof. reflexivity. Qed.

Section MoreParsing.
Context `{Imports}.





Lemma parse_chunks_app (chunks more : list (Z * Z * bytes)) :
  forall (attrs : gmap string pyval) (w : world),
    parse_chunks (chunks ++ more) attrs w
    = bind (parse_chunks chunks attrs) (parse_chunks more) w.
Proof.
  induction chunks as [|chunk rest IH]; intros attrs w; [reflexivity|].
  cbn [app parse_chunks]. unfold bind at 1 2 3.
  destruct (parse_chunk chunk attrs w) as [[attrs1| |] w1]; try reflexivity.
  rewrite IH. reflexivity.
Qed.

(** A chunk whose bytes are not as many as its length field says stops
    the parsing with the invalid-length error, and nothing is undone:
    the attributes of the chunks before it stay set on the
    characteristic object. *)
Theorem bad_chunk_length_keeps_earlier_attributes (data : bytes) (w w1 : world)
    (good rest : list (Z * Z * bytes)) (ty n : Z) (b : bytes)
    (attrs : gmap string pyval) :
  iterate_tvl (drop 5 data) = good ++ (ty, n, b) :: rest ->
  len b <> n ->
  parse_chunks good ∅ w = (Ok attrs, w1) ->
  _parse_response data w = (Raise InvalidResponseLength, w1)
  /\ attrs ⊆ attributes w1.
Proof.
  intros Hchunks Hlen Hgood. split.
  - unfold _parse_response. rewrite Hchunks, parse_chunks_app.
    rewrite (bind_run _ _ _ _ _ Hgood). cbn [parse_chunks].
    unfold bind at 1. unfold parse_chunk.
    apply Z.eqb_neq in Hlen. rewrite Hlen. reflexivity.
  - apply (parse_chunks_cached good ∅ w attrs w1); [|exact Hgood].
    apply map_empty_subseteq.
Qed.

(** One chunk named Value, seen when the map under construction is
    [attrs]: the bytes go through the format converter of the
    characteristic, and the value is added to the one the map has under
    [value], if any. *)
Lemma parse_chunk_value (ty : Z) (b : bytes) (attrs : gmap string pyval) (w : world)
    (f : converter) (v v' : pyval) :
  HAP_param_type_code_to_name ty = Some "Value" ->
  attributes w !! "hap_format_converter" = Some (VFun f) ->
  f b = Ok v ->
  match attrs !! "value" with
  | Some old => py_add old v
  | None => Ok v
  end = Ok v' ->
  parse_chunk (ty, len b, b) attrs w
  = (Ok (<["value" := v']> attrs), set_attributes (insert "value" v') w).
Proof.
  intros Hname Hconv Hf Hadd. unfold parse_chunk.
  rewrite Z.eqb_refl. cbn [negb]. rewrite Hname.
  unfold subscript at 1. unfold bind at 1, ret at 1.
  rewrite bool_decide_eq_true_2 by (rewrite !elem_of_cons; auto).
  unfold bind at 1, getattr at 1. rewrite Hconv.
  rewrite bool_decide_eq_false_2 by discriminate.
  rewrite bool_decide_eq_false_2 by discriminate.
  unfold bind at 1 2, call, lift at 1. rewrite Hf. unfold ret at 1.
  cbn [add_new_attrs].
  change (lower "Value") with "value".
  unfold bind at 1.
  destruct (attrs !! "value") as [old|].
  - unfold lift at 1. rewrite Hadd. reflexivity.
  - injection Hadd as <-. reflexivity.
Qed.

(** Two chunks of the same name are one value cut in two: when the body
    of a response is two Value chunks, the map returned holds under
    [value] the sum of the two converted values, in the order of the
    chunks (for bytes, the bytes of the first followed by those of the
    second), and so does the characteristic object. *)
Theorem duplicate_value_chunks_are_added (data : bytes) (w : world) (ty : Z)
    (b1 b2 : bytes) (f : converter) (v1 v2 v : pyval) :
  iterate_tvl (drop 5 data) = [(ty, len b1, b1); (ty, len b2, b2)] ->
  HAP_param_type_code_to_name ty = Some "Value" ->
  attributes w !! "hap_format_converter" = Some (VFun f) ->
  f b1 = Ok v1 -> f b2 = Ok v2 -> py_add v1 v2 = Ok v ->
  exists w' : world,
    _parse_response data w = (Ok {["value" := v]}, w')
    /\ attributes w' = <["value" := v]> (attributes w).
Proof.
  intros Hchunks Hname Hconv Hf1 Hf2 Hadd.
  eexists. unfold _parse_response. rewrite Hchunks. cbn [parse_chunks].
  rewrite (bind_run _ _ _ _ _
             (parse_chunk_value ty b1 ∅ w f v1 v1 Hname Hconv Hf1
                ltac:(rewrite lookup_empty; reflexivity))).
  assert (attributes (set_attributes (insert "value" v1) w) !! "hap_format_converter"
          = Some (VFun f)) as Hconv1.
  { cbn. rewrite lookup_insert_ne by discriminate. exact Hconv. }
  rewrite (bind_run _ _ _ _ _
             (parse_chunk_value ty b2 _ _ f v2 v Hname Hconv1 Hf2
                ltac:(rewrite lookup_insert_eq; exact Hadd))).
  unfold ret. rewrite insert_insert_eq, insert_empty. split; [reflexivity|].
  cbn. rewrite insert_insert_eq. reflexivity.
Qed.

(** A presentation-format descriptor sets the converter of the chunks
    that follow: when the body is a descriptor chunk and then a Value
    chunk, the descriptor gives the names of the format and of the unit
    and the converter of the format, the converter is stored on the
    characteristic object, and the value is the Value chunk's bytes
    through that converter, not through the one the object had. *)
Theorem format_descriptor_sets_the_converter (data : bytes) (w : world)
    (td tv : Z) (bd bv : bytes) (decode conv : converter)
    (codes format_code unit_code v : pyval) (format_name unit_name : string) :
  iterate_tvl (drop 5 data) = [(td, len bd, bd); (tv, len bv, bv)] ->
  HAP_param_type_code_to_name td = Some "GATT_Presentation_Format_Descriptor" ->
  HAP_param_type_code_to_name tv = Some "Value" ->
  HAP_param_name_to_converter "GATT_Presentation_Format_Descriptor" = Some decode ->
  decode bd = Ok codes ->
  py_unpack2 codes = Ok (format_code, unit_code) ->
  format_code_to_name format_code = Some format_name ->
  format_name_to_converter format_name = Some conv ->
  unit_code_to_name unit_code = Some unit_name ->
  conv bv = Ok v ->
  exists w' : world,
    _parse_response data w
    = (Ok (<["value" := v]>
             (<["hap_unit" := VStr unit_name]>
                (<["hap_format_converter" := VFun conv]>
                   {["hap_format" := VStr format_name]}))), w')
    /\ attributes w' !! "hap_format_converter" = Some (VFun conv)
    /\ attributes w' !! "value" = Some v.
Proof.
  intros Hchunks Hnd Hnv Hdec Hcodes Hpair Hfn Hfc Hun Hv.
  eexists. unfold _parse_response. rewrite Hchunks. cbn [parse_chunks].
  assert (parse_chunk (td, len bd, bd) ∅ w
          = (Ok (<["hap_unit" := VStr unit_name]>
                   (<["hap_format_converter" := VFun conv]>
                      {["hap_format" := VStr format_name]})),
             set_attributes (insert "hap_unit" (VStr unit_name))
               (set_attributes (insert "hap_format_converter" (VFun conv))
                  (set_attributes (insert "hap_format" (VStr format_name)) w))))
    as Hfirst.
  { unfold parse_chunk. rewrite Z.eqb_refl. cbn [negb].
    repeat first
      [ rewrite bind_assoc | rewrite bind_ret | rewrite bind_lift_ok
      | rewrite bind_subscript_some
      | rewrite Hnd | rewrite Hdec | rewrite Hcodes | rewrite Hpair
      | rewrite Hfn | rewrite Hfc | rewrite Hun
      | rewrite bool_decide_eq_true_2 by reflexivity
      | rewrite bool_decide_eq_false_2
          by (rewrite !elem_of_cons, elem_of_nil; intros [|[|[|[]]]]; discriminate)
      | progress cbn [call]
      | progress cbn beta iota zeta ].
    vm_compute. reflexivity. }
  rewrite (bind_run _ _ _ _ _ Hfirst).
  match goal with
  | |- context [bind (parse_chunk _ ?attrs) _ ?w1] =>
      rewrite (bind_run _ _ _ _ _
                 (parse_chunk_value tv bv attrs w1 conv v v Hnv
                    ltac:(cbn; rewrite lookup_insert_ne by discriminate;
                          apply lookup_insert_eq)
                    Hv
                    ltac:(rewrite !lookup_insert_ne by discriminate;
                          rewrite lookup_singleton_ne by discriminate; reflexivity)))
  end.
  unfold ret. split; [reflexivity|]. cbn. split.
  - rewrite lookup_insert_ne by discriminate.
    rewrite lookup_insert_ne by discriminate. apply lookup_insert_eq.
  - apply lookup_insert_eq.
Qed.

(** A valid-range chunk is cut in two halves, the second one longer by
    a byte when the length is odd, and each half goes through the format
    converter of the characteristic: the first gives [min_value], the
    second [max_value]. *)
Theorem valid_range_is_split_in_halves (data : bytes) (w : world) (ty : Z) (b : bytes)
    (f : converter) (low high : pyval) :
  iterate_tvl (drop 5 data) = [(ty, len b, b)] ->
  HAP_param_type_code_to_name ty = Some "GATT_Valid_Range" ->
  attributes w !! "hap_format_converter" = Some (VFun f) ->
  f (take (length b `div` 2) b) = Ok low ->
  f (drop (length b `div` 2) b) = Ok high ->
  exists w' : world,
    _parse_response data w
    = (Ok (<["max_value" := high]> {["min_value" := low]}), w')
    /\ attributes w' = <["max_value" := high]> (<["min_value" := low]> (attributes w)).
Proof.
  intros Hchunks Hname Hconv Hlow Hhigh.
  eexists. unfold _parse_response. rewrite Hchunks. cbn [parse_chunks].
  unfold parse_chunk. rewrite Z.eqb_refl. cbn [negb]. rewrite Hname.
  unfold subscript at 1. unfold bind at 1 2, ret at 1.
  rewrite bool_decide_eq_true_2 by (rewrite !elem_of_cons; auto).
  unfold bind at 1, getattr at 1. rewrite Hconv.
  rewrite bool_decide_eq_false_2 by discriminate.
  rewrite bool_decide_eq_true_2 by reflexivity.
  unfold bind at 1 2, call, lift at 1. rewrite Hlow.
  unfold bind at 1, lift at 1. rewrite Hhigh.
  unfold ret. split; reflexivity.
Qed.

End MoreParsing.

Lemma duplicate_value_chunks_are_added_witness :
  exists w' : world,
    @_parse_response spec_imports two_values_response (sample_world [])
    = (Ok {["value" := VBytes [x07; x08]]}, w')
    /\ attributes w' = <["value" := VBytes [x07; x08]]> (attributes (sample_world [])).
Proof.
  apply (@duplicate_value_chunks_are_added spec_imports two_values_response
           (sample_world []) 1 [x07] [x08] spec_identity
           (VBytes [x07]) (VBytes [x08]) (VBytes [x07; x08]));
    reflexivity.
Defined.


Lemma format_descriptor_sets_the_converter_witness :
  exists w' : world,
    @_parse_response spec_imports described_value_response (sample_world [])
    = (Ok (<["value" := VInt 7]>
             (<["hap_unit" := VStr "unitless"]>
                (<["hap_format_converter" := VFun spec_uint8]>
                   {["hap_format" := VStr "uint8"]}))), w')
    /\ attributes w' !! "hap_format_converter" = Some (VFun spec_uint8)
    /\ attributes w' !! "value" = Some (VInt 7).
Proof.
  apply (@format_descriptor_sets_the_converter spec_imports described_value_response
           (sample_world []) 12 1 [x04; x00; x00; x27] [x07]
           spec_format_descriptor spec_uint8
           (VTuple [VInt 4; VInt 9984]) (VInt 4) (VInt 9984) (VInt 7)
           "uint8" "unitless");
    reflexivity.
Defined.

Lemma valid_range_is_split_in_halves_witness :
  exists w' : world,
    @_parse_response spec_imports valid_range_response (sample_world [])
    = (Ok (<["max_value" := VBytes [x02; x03]]> {["min_value" := VBytes [x01]]}), w')
    /\ attributes w'
       = <["max_value" := VBytes [x02; x03]]>
           (<["min_value" := VBytes [x01]]> (attributes (sample_world []))).
Proof.
  apply (@valid_range_is_split_in_halves spec_imports valid_range_response
           (sample_world []) 13 [x01; x02; x03] spec_identity
           (VBytes [x01]) (VBytes [x02; x03]));
    reflexivity.
Defined.

Lemma bad_chunk_length_keeps_earlier_attributes_witness :
  exists w1 : world,
    @_parse_response spec_imports short_chunk_response (sample_world [])
    = (Raise InvalidResponseLength, w1)
    /\ {["value" := VBytes [x07]]} ⊆ attributes w1.
Proof.
  exists (@parse_chunks spec_imports [(1, 1, [x07])] ∅ (sample_world [])).2.
  apply (@bad_chunk_length_keeps_earlier_attributes spec_imports short_chunk_response
           (sample_world []) _ [(1, 1, [x07])] [] 1 5 [x08]).
  - reflexivity.
  - vm_compute. discriminate.
  - vm_compute. reflexivity.
Defined.

(** ** The pairing-data exchange, round by round *)

Section Exchange.
Context `{Imports}.

Lemma write_ktlvs_loop_round (fuel : nat) (l : addr) (kTLVs : list (Z * bytes))
    (assembled : gmap string pyval) (w w1 : world) (parsed : gmap string pyval) :
  ktlv_round (S fuel) l kTLVs w parsed w1 ->
  write_ktlvs_loop (S fuel) l kTLVs assembled w
  = match parsed !! "kTLVType_FragmentData", parsed !! "kTLVType_FragmentLast" with
    | Some data, _ =>
        match py_add (default (VBytes []) (assembled !! "kTLVType_FragmentData")) data with
        | Ok v =>
            write_ktlvs_loop fuel l [(PairingKTlvValues_kTLVType_FragmentData, [])]
              (<["kTLVType_FragmentData" := v]> assembled) w1
        | Raise e => (Raise e, w1)
        | OutOfFuel => (OutOfFuel, w1)
        end
    | None, Some last =>
        match assembled !! "kTLVType_FragmentData" with
        | Some so_far =>
            match py_add so_far last with
            | Ok v => (Ok (<["kTLVType_FragmentData" := v]> assembled), w1)
            | Raise e => (Raise e, w1)
            | OutOfFuel => (OutOfFuel, w1)
            end
        | None => (Raise KeyError, w1)
        end
    | None, None => (Ok parsed, w1)
    end.
Proof.
  intros (prepared & rp & value & Hprep & Hwrite & Hvalue & Hparse).
  cbn [write_ktlvs_loop]. rewrite Hprep.
  rewrite bind_lift_ok.
  change (lift (pack_B 1)) with (@lift byte (Ok x01)). rewrite bind_lift_ok.
  fold (ktlv_round_TLVs prepared).
  rewrite (bind_run _ _ _ _ _ Hwrite). rewrite Hvalue, Hparse, bind_lift_ok.
  destruct (parsed !! "kTLVType_FragmentData") as [data|].
  - unfold bind, lift. destruct (py_add _ data); reflexivity.
  - destruct (parsed !! "kTLVType_FragmentLast") as [last|]; [|reflexivity].
    destruct (assembled !! "kTLVType_FragmentData") as [so_far|]; [|reflexivity].
    rewrite bind_subscript_some. unfold bind, lift, ret.
    destruct (py_add so_far last); reflexivity.
Qed.

Lemma assembled_after_more (ds : list bytes) (d : bytes) :
  <["kTLVType_FragmentData" :=
      VBytes (match default (VBytes []) (assembled_after ds !! "kTLVType_FragmentData") with
              | VBytes acc => acc ++ d
              | _ => d
              end)]> (assembled_after ds)
  = assembled_after (ds ++ [d]).
Proof.
  destruct ds as [|d0 ds]; cbn [assembled_after app].
  - rewrite lookup_empty. cbn. rewrite insert_empty, app_nil_r. reflexivity.
  - rewrite lookup_singleton_eq. cbn [default].
    rewrite insert_singleton_eq. do 2 f_equal.
    change (d0 :: ds ++ [d]) with ((d0 :: ds) ++ [d]).
    rewrite concat_app. cbn. rewrite app_nil_r. reflexivity.
Qed.

Lemma write_ktlvs_loop_data_rounds (l : addr) (fuel : nat) (kTLVs : list (Z * bytes))
    (w : world) (ds : list bytes) (fuel' : nat) (kTLVs' : list (Z * bytes))
    (w' : world) :
  data_rounds l fuel kTLVs w ds fuel' kTLVs' w' ->
  forall before : list bytes,
    write_ktlvs_loop fuel l kTLVs (assembled_after before) w
    = write_ktlvs_loop fuel' l kTLVs' (assembled_after (before ++ ds)) w'.
Proof.
  induction 1 as [fuel kTLVs w|fuel kTLVs w w1 parsed d ds fuel' kTLVs' w' Hround Hd _ IH];
    intros before.
  - rewrite app_nil_r. reflexivity.
  - rewrite (write_ktlvs_loop_round fuel l kTLVs _ w w1 parsed Hround), Hd.
    pose proof (assembled_after_more before d) as Hmore.
    destruct (default (VBytes []) (assembled_after before !! "kTLVType_FragmentData"))
      as [acc| | | |] eqn:Hacc;
      try (destruct before; cbn in Hacc;
           [rewrite lookup_empty in Hacc|rewrite lookup_singleton_eq in Hacc];
           discriminate Hacc).
    cbn [py_add]. rewrite Hmore, IH, <- app_assoc. reflexivity.
Qed.

(** Reassembly in [write_ktlvs]: after one or more responses holding
    FragmentData (each answered by a request of one empty FragmentData
    kTLV; a FragmentLast in the same response is not looked at), a
    response with FragmentLast and no FragmentData ends the exchange,
    and the result is the one entry [kTLVType_FragmentData] holding the
    fragments in the order received, followed by the bytes of
    FragmentLast. *)
Theorem write_ktlvs_reassembles (l : addr) (fuel fuel' : nat)
    (kTLVs kTLVs' : list (Z * bytes)) (w w1 w' : world)
    (ds : list bytes) (parsed : gmap string pyval) (last : bytes) :
  data_rounds l fuel kTLVs w ds (S fuel') kTLVs' w1 ->
  ds <> [] ->
  ktlv_round (S fuel') l kTLVs' w1 parsed w' ->
  parsed !! "kTLVType_FragmentData" = None ->
  parsed !! "kTLVType_FragmentLast" = Some (VBytes last) ->
  write_ktlvs fuel l kTLVs w
  = (Ok {["kTLVType_FragmentData" := VBytes (concat ds ++ last)]}, w').
Proof.
  intros Hrounds Hne Hround Hdata Hlast. unfold write_ktlvs.
  change ∅ with (assembled_after []).
  rewrite (write_ktlvs_loop_data_rounds l _ _ _ _ _ _ _ Hrounds []). cbn [app].
  rewrite (write_ktlvs_loop_round fuel' l kTLVs' _ w1 w' parsed Hround), Hdata, Hlast.
  destruct ds as [|d ds]; [congruence|]. cbn [assembled_after].
  rewrite lookup_singleton_eq. cbn [py_add]. rewrite insert_singleton_eq. reflexivity.
Qed.

(** A response that holds neither FragmentData nor FragmentLast ends
    [write_ktlvs] with the kTLVs of that response as they are; the
    fragments received before it, if any, are not in the result. *)
Theorem write_ktlvs_returns_a_plain_response (l : addr) (fuel fuel' : nat)
    (kTLVs kTLVs' : list (Z * bytes)) (w w1 w' : world)
    (ds : list bytes) (parsed : gmap string pyval) :
  data_rounds l fuel kTLVs w ds (S fuel') kTLVs' w1 ->
  ktlv_round (S fuel') l kTLVs' w1 parsed w' ->
  parsed !! "kTLVType_FragmentData" = None ->
  parsed !! "kTLVType_FragmentLast" = None ->
  write_ktlvs fuel l kTLVs w = (Ok parsed, w').
Proof.
  intros Hrounds Hround Hdata Hlast. unfold write_ktlvs.
  change ∅ with (assembled_after []).
  rewrite (write_ktlvs_loop_data_rounds l _ _ _ _ _ _ _ Hrounds []). cbn [app].
  rewrite (write_ktlvs_loop_round fuel' l kTLVs' _ w1 w' parsed Hround), Hdata, Hlast.
  reflexivity.
Qed.

(** A response without a [value] attribute ends [write_ktlvs] with the
    pairing error, at the first round or after FragmentData rounds. *)
Theorem write_ktlvs_needs_a_value (l : addr) (fuel fuel' : nat)
    (kTLVs kTLVs' : list (Z * bytes)) (w w1 w' : world)
    (ds : list bytes) (prepared : bytes) (response_parsed : gmap string pyval) :
  data_rounds l fuel kTLVs w ds (S fuel') kTLVs' w1 ->
  prepared_ktlvs kTLVs' = Ok prepared ->
  write (S fuel') l (ktlv_round_TLVs prepared) w1 = (Ok response_parsed, w') ->
  response_parsed !! "value" = None ->
  write_ktlvs fuel l kTLVs w = (Raise PairingProtocolError, w').
Proof.
  intros Hrounds Hprep Hwrite Hvalue. unfold write_ktlvs.
  change ∅ with (assembled_after []).
  rewrite (write_ktlvs_loop_data_rounds l _ _ _ _ _ _ _ Hrounds []). cbn [app].
  cbn [write_ktlvs_loop]. rewrite Hprep, bind_lift_ok.
  change (lift (pack_B 1)) with (@lift byte (Ok x01)). rewrite bind_lift_ok.
  fold (ktlv_round_TLVs prepared).
  rewrite (bind_run _ _ _ _ _ Hwrite), Hvalue. reflexivity.
Qed.

End Exchange.

Ltac sample_round :=
  eexists _, _, _;
  split; [vm_compute; reflexivity|];
  split; [vm_compute; reflexivity|];
  split; vm_compute; reflexivity.

Lemma write_ktlvs_reassembles_witness :
  exists w' : world,
    @write_ktlvs spec_imports 3 0%nat [(6, [x01])]
      (sample_world [fragment_data_response x58; fragment_data_response x59;
                     fragment_last_response x5a])
    = (Ok {["kTLVType_FragmentData" := VBytes [x58; x59; x5a]]}, w').
Proof.
  eexists.
  eapply (@write_ktlvs_reassembles spec_imports 0%nat 3 0 _ _ _ _ _
            [[x58]; [x59]] _ [x5a]).
  - eapply data_rounds_more; [sample_round|vm_compute; reflexivity|].
    eapply data_rounds_more; [sample_round|vm_compute; reflexivity|].
    apply data_rounds_none.
  - discriminate.
  - sample_round.
  - vm_compute. reflexivity.
  - vm_compute. reflexivity.
Defined.

Lemma write_ktlvs_returns_a_plain_response_witness :
  exists w' : world,
    @write_ktlvs spec_imports 3 0%nat [(6, [x01])]
      (sample_world [fragment_data_response x58; ktlv_response x06 x02])
    = (Ok {["kTLVType_State" := VBytes [x02]]}, w').
Proof.
  eexists.
  eapply (@write_ktlvs_returns_a_plain_response spec_imports 0%nat 3 1 _ _ _ _ _
            [[x58]]).
  - eapply data_rounds_more; [sample_round|vm_compute; reflexivity|].
    apply data_rounds_none.
  - sample_round.
  - vm_compute. reflexivity.
  - vm_compute. reflexivity.
Defined.

Lemma write_ktlvs_needs_a_value_witness :
  exists w' : world,
    @write_ktlvs spec_imports 3 0%nat [(6, [x01])]
      (sample_world [[x02; x2a; x00]])
    = (Raise PairingProtocolError, w').
Proof.
  eexists.
  eapply (@write_ktlvs_needs_a_value spec_imports 0%nat 3 2 _ _ _ _ _ []).
  - apply data_rounds_none.
  - vm_compute. reflexivity.
  - vm_compute. reflexivity.
  - vm_compute. reflexivity.
Defined.

(** ** The cached instance identifier and signature *)

Section HandleProperties.
Context `{Imports}.
Variable _read_cid : M bytes.
Variable Characteristic_Signature_Read : Z.

Lemma cid_cached (c c1 : HapCharacteristic) (b : bytes) :
  cid _read_cid c = (Ok b, c1) ->
  _cid c1 = Some b /\ _signature c1 = _signature c.
Proof.
  unfold cid. destruct c as [w [b0|] s]; cbn.
  - intros [= <- <-]. split; reflexivity.
  - destruct (_read_cid w) as [[b1|e|] w']; intros [= <- <-] || intros [=].
    split; reflexivity.
Qed.

Lemma new_header_lookup (h : HapBlePduRequestHeader) (w : world) :
  heap (new_header h w).2 !! (new_header h w).1 = Some h.
Proof. unfold new_header. cbn. apply lookup_insert_eq. Qed.

(** The request of a signature read, as it leaves: the header of a
    first PDU with the opcode, a transaction identifier drawn for it and
    the instance identifier, in one write and with no body. *)
Lemma signature_request_run (fuel : nat) (b : bytes) (w : world) (o : byte) :
  byte_to_Z o = Characteristic_Signature_Read ->
  let h := default_header b Characteristic_Signature_Read in
  let lw := new_header h w in
  exists w1 : world,
    _request fuel lw.1 [] lw.2 = (Ok tt, w1)
    /\ written w1 = written w ++ [[x00; o; entropy w (draws w)] ++ b]
    /\ incoming w1 = incoming w.
Proof.
  intros Ho h lw.
  assert (header_wire h (settled_tid h lw.2)
          = Ok ([x00; o; entropy w (draws w)] ++ b)) as Hwire.
  { unfold header_wire, h, default_header, settled_tid. cbn.
    rewrite <- Ho, !pack_B_byte. reflexivity. }
  eexists. split.
  - apply (_request_empty fuel lw.1 lw.2 h _ (new_header_lookup h w) Hwire).
  - split; reflexivity.
Qed.

(** A signature that is not cached is fetched with one write and one
    read: the write is the 3-byte header of a first PDU (control byte 0,
    the opcode of the signature read, a transaction identifier drawn
    for it) followed by the instance identifier, with no body; the read
    takes the next response. The instance identifier stays cached
    whatever the response is. *)
Theorem signature_is_one_write_and_one_read (fuel : nat)
    (c c1 : HapCharacteristic) (b : bytes) :
  0 <= Characteristic_Signature_Read <= 255 ->
  _signature c = None ->
  cid _read_cid c = (Ok b, c1) ->
  let c' := (signature _read_cid Characteristic_Signature_Read fuel c).2 in
  exists o : byte,
    byte_to_Z o = Characteristic_Signature_Read
    /\ written (env c')
       = written (env c1) ++ [[x00; o; entropy (env c1) (draws (env c1))] ++ b]
    /\ incoming (env c') = tail (incoming (env c1))
    /\ _cid c' = Some b.
Proof.
  intros Hop Hsig Hcid.
  destruct (pack_B_in_range _ Hop) as (o & _ & Ho).
  destruct (cid_cached _ _ _ Hcid) as (Hc1 & _).
  destruct (signature_request_run fuel b (env c1) o Ho) as (w1 & Hreq & Hw & Hi).
  cbn zeta in Hreq.
  cbn zeta. exists o. split; [exact Ho|].
  unfold signature. rewrite Hsig, Hcid.
  set (h := default_header b Characteristic_Signature_Read) in *.
  destruct (new_header h (env c1)) as [l w0] eqn:Hnew. cbn [fst snd] in Hreq.
  assert (incoming (read fuel l w0).2 = tail (incoming (env c1))
          /\ written (read fuel l w0).2 = written w1) as (Hri & Hrw).
  { unfold read, write. rewrite (bind_run _ _ _ _ _ Hreq).
    destruct (incoming w1) as [|data more] eqn:Hin.
    { assert (_read w1 = (Raise TransportError, w1)) as Hread
        by (unfold _read; rewrite Hin; reflexivity).
      rewrite (bind_raise _ _ _ _ _ Hread). cbn [snd].
      rewrite <- Hi. split; [exact Hin|reflexivity]. }
    assert (_read w1 = (Ok data, set_incoming more w1)) as Hread
      by (unfold _read; rewrite Hin; reflexivity).
    rewrite (bind_run _ _ _ _ _ Hread). rewrite <- Hi. cbn [tail].
    destruct (_check_read_response l data (set_incoming more w1))
      as [o2 w2] eqn:Hcheck.
    pose proof (keeps_check l data _ _ _ Hcheck) as (Hw2 & Hi2 & _).
    cbn in Hw2, Hi2.
    destruct o2 as [rh|e|].
    2: { rewrite (bind_raise _ _ _ _ _ Hcheck). cbn [snd]. split; assumption. }
    2: { rewrite (bind_out_of_fuel _ _ _ _ Hcheck). cbn [snd]. split; assumption. }
    rewrite (bind_run _ _ _ _ _ Hcheck).
    destruct (_parse_response data w2) as [o3 w3] eqn:Hparse.
    pose proof (keeps_parse_chunks _ _ _ _ _ Hparse) as (_ & _ & Hw3 & Hi3 & _).
    destruct o3 as [parsed|e|].
    2: { rewrite (bind_raise _ _ _ _ _ Hparse). cbn [snd]. split; congruence. }
    2: { rewrite (bind_out_of_fuel _ _ _ _ Hparse). cbn [snd]. split; congruence. }
    rewrite (bind_run _ _ _ _ _ Hparse).
    destruct (continuation rh); split; cbn; congruence. }
  destruct (read fuel l w0) as [[s|e|] w2]; cbn [snd env _cid] in *;
    (split; [congruence|]); (split; [exact Hri|exact Hc1]).
Qed.

(** A signature that was fetched is answered from the cache from then
    on, and so is the instance identifier: neither access reaches the
    transport again, whatever it would answer. *)
Theorem signature_is_fetched_once (fuel : nat) (c c' : HapCharacteristic)
    (s : gmap string pyval) :
  _signature c = None ->
  signature _read_cid Characteristic_Signature_Read fuel c = (Ok s, c') ->
  (forall (other_read : M bytes) (op_code' : Z) (fuel' : nat),
      signature other_read op_code' fuel' c' = (Ok s, c'))
  /\ exists b : bytes, forall other_read : M bytes, cid other_read c' = (Ok b, c').
Proof.
  intros Hsig. unfold signature at 1. rewrite Hsig.
  destruct (cid _read_cid c) as [[b|e|] c1] eqn:Hcid; [|intros [=]..].
  destruct (cid_cached _ _ _ Hcid) as (Hc1 & _).
  destruct (new_header _ (env c1)) as [l w0].
  destruct (read fuel l w0) as [[s'|e|] w2]; intros [= <- <-] || intros [=].
  split.
  - intros other_read op_code' fuel'. reflexivity.
  - exists b. intros other_read. unfold cid. cbn. rewrite Hc1. reflexivity.
Qed.

(** A signature read that fails is not remembered, so the next access
    asks the accessory again; the instance identifier read for it is
    kept. *)
Theorem failed_signature_is_not_cached (fuel : nat) (c c1 c' : HapCharacteristic)
    (b : bytes) (e : error) :
  _signature c = None ->
  cid _read_cid c = (Ok b, c1) ->
  signature _read_cid Characteristic_Signature_Read fuel c = (Raise e, c') ->
  _signature c' = None /\ _cid c' = Some b.
Proof.
  intros Hsig Hcid. unfold signature. rewrite Hsig, Hcid.
  destruct (cid_cached _ _ _ Hcid) as (Hc1 & _).
  destruct (new_header _ (env c1)) as [l w0].
  destruct (read fuel l w0) as [[s'|e'|] w2]; intros [= <- <-] || intros [=].
  split; [reflexivity|exact Hc1].
Qed.

End HandleProperties.

(** ** The cache of GATT characteristics *)

Section AccessoryProperties.
Variables (Characteristic Peripheral : Type).
Variable getCharacteristics :
  string -> Peripheral -> (error + list Characteristic) * Peripheral.

(** A characteristic that was found is answered from the cache from
    then on, without a call to the peripheral, and finding it changes no
    other entry of the cache. *)
Theorem charateristic_is_looked_up_once (uuid : string)
    (a a' : HapAccessory Characteristic Peripheral) (c : Characteristic) :
  charateristic _ _ getCharacteristics uuid a = (Item c, a') ->
  (forall other_lookup, charateristic _ _ other_lookup uuid a' = (Item c, a'))
  /\ forall other : string, other <> uuid ->
       _characteristics _ _ a' !! other = _characteristics _ _ a !! other.
Proof.
  unfold charateristic at 1.
  destruct (_characteristics _ _ a !! uuid) as [c0|] eqn:Hc.
  - intros [= <- <-]. split; [|reflexivity].
    intros other_lookup. unfold charateristic. rewrite Hc. reflexivity.
  - destruct (getCharacteristics uuid (peripheral _ _ a)) as [[e|[|c1 cs]] p];
      intros [= <- <-] || intros [=].
    split.
    + intros other_lookup. unfold charateristic. cbn.
      rewrite lookup_insert_eq. reflexivity.
    + intros other Hne. cbn. apply lookup_insert_ne. congruence.
Qed.

(** A lookup that fails, by an exception of the peripheral or because
    the peripheral has no characteristic of this UUID, leaves the cache
    as it was; a lookup that succeeds leaves the characteristic in the
    cache. No lookup removes or replaces an entry. *)
Theorem charateristic_cache_only_grows (uuid : string)
    (a : HapAccessory Characteristic Peripheral) :
  let r := charateristic _ _ getCharacteristics uuid a in
  _characteristics _ _ a ⊆ _characteristics _ _ r.2
  /\ match r.1 with
     | Item c => _characteristics _ _ r.2 !! uuid = Some c
     | _ => _characteristics _ _ r.2 = _characteristics _ _ a
     end.
Proof.
  cbn zeta. unfold charateristic.
  destruct (_characteristics _ _ a !! uuid) as [c0|] eqn:Hc; cbn.
  - split; [reflexivity|exact Hc].
  - destruct (getCharacteristics uuid (peripheral _ _ a)) as [[e|[|c1 cs]] p]; cbn.
    + split; reflexivity.
    + split; reflexivity.
    + split; [apply insert_subseteq; exact Hc|apply lookup_insert_eq].
Qed.

End AccessoryProperties.

(** The signature of a characteristic whose instance identifier is 5,
    fetched with opcode 1 and the transaction identifier 42. *)
Lemma signature_is_one_write_and_one_read_witness :
  let c := mkCharacteristic (sample_world [two_values_response]) None None in
  let c' := (@signature spec_imports sample_read_cid 1 5 c).2 in
  exists o : byte,
    byte_to_Z o = 1
    /\ written (env c') = [] ++ [[x00; o; x2a] ++ [x05; x00]]
    /\ incoming (env c') = []
    /\ _cid c' = Some [x05; x00].
Proof.
  apply (@signature_is_one_write_and_one_read spec_imports sample_read_cid 1 5
           (mkCharacteristic (sample_world [two_values_response]) None None)
           (mkCharacteristic (sample_world [two_values_response])
              (Some [x05; x00]) None)
           [x05; x00]).
  - lia.
  - reflexivity.
  - reflexivity.
Defined.

Lemma signature_is_fetched_once_witness :
  let c := mkCharacteristic (sample_world [two_values_response]) None None in
  let c' := (@signature spec_imports sample_read_cid 1 5 c).2 in
  (forall (other_read : M bytes) (op_code' : Z) (fuel' : nat),
      @signature spec_imports other_read op_code' fuel' c'
      = (Ok {["value" := VBytes [x07; x08]]}, c'))
  /\ exists b : bytes, forall other_read : M bytes, cid other_read c' = (Ok b, c').
Proof.
  apply (@signature_is_fetched_once spec_imports sample_read_cid 1 5
           (mkCharacteristic (sample_world [two_values_response]) None None)).
  - reflexivity.
  - vm_compute. reflexivity.
Defined.

(** The accessory does not answer: the read is a transport error. *)
Lemma failed_signature_is_not_cached_witness :
  let c := mkCharacteristic (sample_world []) None None in
  let c' := (@signature spec_imports sample_read_cid 1 5 c).2 in
  _signature c' = None /\ _cid c' = Some [x05; x00].
Proof.
  apply (@failed_signature_is_not_cached spec_imports sample_read_cid 1 5
           (mkCharacteristic (sample_world []) None None)
           (mkCharacteristic (sample_world []) (Some [x05; x00]) None)
           _ [x05; x00] TransportError).
  - reflexivity.
  - reflexivity.
  - vm_compute. reflexivity.
Defined.

Lemma charateristic_is_looked_up_once_witness :
  let a := mkAccessory nat nat "aa:bb" "static" 0%nat ∅ in
  let a' := mkAccessory nat nat "aa:bb" "static" 1%nat {["c1" := 7%nat]} in
  (forall other_lookup, charateristic _ _ other_lookup "c1" a' = (Item 7%nat, a'))
  /\ forall other : string, other <> "c1" ->
       _characteristics _ _ a' !! other = _characteristics _ _ a !! other.
Proof.
  apply (charateristic_is_looked_up_once nat nat sample_getCharacteristics "c1"
           (mkAccessory nat nat "aa:bb" "static" 0%nat ∅)).
  vm_compute. reflexivity.
Defined.
